(** * ContentDataProvider: the content navigator's mutation, transfer and
      drop logic

    A shallow embedding of
    [client/src/components/ContentNavigator/ContentDataProvider.ts].

    The provider is asynchronous JavaScript.  An [async] function runs
    synchronously up to its first [await]; after that it advances one
    event-loop turn at a time, and the turns of the promises joined by
    [Promise.all] interleave.  The embedding keeps exactly that structure:

    - a [Task] is a pending promise: either settled ([Done]) or suspended
      at an [await] with the turn that resumes it;
    - an [Async] computation is a call in progress: it transforms the
      world synchronously and hands back the [Task] that is left;
    - [par]/[all] interleave suspended tasks, the order being read from a
      schedule kept in the world, so that a statement quantified over the
      world is a statement about every interleaving.

    The content model ([ContentModel.ts]), the helpers of [utils.ts] and
    the editor host are not part of this file's source; they are taken
    as parameters ([Utils], [ContentModel], [Host]).  Every remote call
    and every notification is recorded in the world's [log]. *)

From Stdlib Require Import List Bool String Arith Lia.
Import ListNotations.
Open Scope string_scope.
Open Scope list_scope.

#[local] Set Warnings "-register-all".

(** ** Data model *)

(** A [vscode.Uri], reduced to the components the provider reads:
    [Uri.joinPath] appends a path segment, [closeFileIfOpen] reads
    [query]. *)
Record Uri : Type := mkUri {
  scheme : string;
  path : list string;
  query : string
}.

Definition joinPath (base : Uri) (segment : string) : Uri :=
  mkUri (scheme base) (path base ++ [segment]) (query base).

(** [Link] and [ContentItem] of [types.ts], with the fields this file
    reads.  [isInRecycleBin] is [item.flags.isInRecycleBin]. *)
Record Link : Type := mkLink {
  method : string;
  rel : string;
  link_uri : string
}.

Record ContentItem : Type := mkItem {
  name : string;
  type : string;
  uri : string;
  parentFolderUri : string;
  links : list Link;
  isInRecycleBin : bool
}.

(** Editor tabs.  [tab_id] stands for the identity of the [Tab] object,
    which is what [window.tabGroups.close] receives. *)
Inductive TabInput : Type :=
| TabInputText (u : Uri)
| TabInputNotebook (u : Uri)
| TabInputOther.

Record Tab : Type := mkTab {
  tab_id : nat;
  input : TabInput
}.

(** The entries of [Messages] (const.ts) that the provider shows. *)
Inductive Message : Type :=
| FileDropError
| FileDragFromTrashError
| FileDragFromFavorites
| FileUploadError.

(** The local file system as the import code sees it through [lstat],
    [readdir] and [readFile]: a finite tree ([lstat] does not follow
    links).  A dropped or uploaded path is represented by the entry found
    at it; [basename] of the path is the entry's name. *)
Inductive FsEntry : Type :=
| FsFile (fname : string) (content : string)
| FsDir (dname : string) (entries : list FsEntry).

Definition basename (e : FsEntry) : string :=
  match e with
  | FsFile n _ => n
  | FsDir n _ => n
  end.

(** The two channels of a drop payload ([DataTransfer.get] on
    [dropMimeTypes]): the dragged content items, and the entries named by
    a [text/uri-list].  [None] is an absent item or a falsy value. *)
Record DataTransfer : Type := mkDataTransfer {
  dt_contentItems : option (list ContentItem);
  dt_uriList : option (list FsEntry)
}.

(** ** Observable events

    Everything the provider does to its collaborators: notifications on
    its two emitters, messages and commands sent to the editor, calls on
    the content model (with their results) and writes to the local file
    system. *)
Inductive Event : Type :=
| EvRefresh
    (* _onDidChangeTreeData.fire(undefined) *)
| EvDidChange (u : Uri)
    (* _onDidChange.fire(u) *)
| EvShowError (m : Message) (arg : option string)
    (* window.showErrorMessage(l10n.t(m, { name: arg })) *)
| EvReveal (item : ContentItem)
| EvOpen (u : Uri)
    (* commands.executeCommand("vscode.open", u) *)
| EvCloseRequest (t : Tab)
    (* window.tabGroups.close(t) called *)
| EvCloseResult (t : Tab) (closed : bool)
    (* ... and settled *)
| EvCreateFolder (parent : ContentItem) (n : string) (res : option ContentItem)
| EvCreateFile (parent : ContentItem) (n : string) (buffer : option string)
    (res : option ContentItem)
| EvRename (item : ContentItem) (n : string) (res : option ContentItem)
| EvDelete (item : ContentItem) (ok : bool)
| EvMoveTo (item : ContentItem) (target : string) (ok : bool)
| EvAddFavorite (item : ContentItem) (ok : bool)
| EvRemoveFavorite (item : ContentItem) (ok : bool)
| EvGetChildren (item : option ContentItem) (res : list ContentItem)
| EvGetContent (u : Uri) (res : string)
| EvFsCreateDirectory (u : Uri)
| EvFsWriteFile (u : Uri) (content : string).

(** ** Collaborators *)

(** The helpers imported from [utils.ts] and the folder type constants
    of [const.ts]. *)
Record Utils : Type := mkUtils {
  getUri : ContentItem -> bool -> Uri;
  getLink : list Link -> string -> string -> option Link;
  getResourceIdFromItem : ContentItem -> option string;
  isContainer : ContentItem -> bool;
  isItemInRecycleBin : ContentItem -> bool;
  isReference : ContentItem -> bool;
  TRASH_FOLDER_TYPE : string;
  FAVORITES_FOLDER_TYPE : string
}.

(** The [ContentModel].  The answer of a call may depend on everything
    that happened before it, so each operation reads the log. *)
Record ContentModel : Type := mkModel {
  model_createFolder :
    list Event -> ContentItem -> string -> option ContentItem;
  model_createFile :
    list Event -> ContentItem -> string -> option string -> option ContentItem;
  model_renameResource :
    list Event -> ContentItem -> string -> option ContentItem;
  model_delete : list Event -> ContentItem -> bool;
  model_moveTo : list Event -> ContentItem -> string -> bool;
  model_addFavorite : list Event -> ContentItem -> bool;
  model_removeFavorite : list Event -> ContentItem -> bool;
  model_getChildren : list Event -> option ContentItem -> list ContentItem;
  model_getDelegateFolder : list Event -> string -> option ContentItem;
  model_getContentByUri : list Event -> Uri -> string
}.

(** The editor host: whether closing a tab goes through (the user may
    decline to discard unsaved changes). *)
Record Host : Type := mkHost {
  tabGroups_close : list Event -> Tab -> bool
}.

(** ** The world *)

(** [tabs] is [window.tabGroups.all] flattened; [log] the events so far;
    [cells] the store of the [let success] variables that the import
    callbacks share; [sched] the pending scheduling decisions. *)
Record World : Type := mkWorld {
  tabs : list Tab;
  log : list Event;
  cells : list bool;
  sched : list bool
}.

Definition set_tabs (ts : list Tab) (w : World) : World :=
  mkWorld ts (log w) (cells w) (sched w).
Definition set_log (l : list Event) (w : World) : World :=
  mkWorld (tabs w) l (cells w) (sched w).
Definition set_cells (c : list bool) (w : World) : World :=
  mkWorld (tabs w) (log w) c (sched w).
Definition set_sched (s : list bool) (w : World) : World :=
  mkWorld (tabs w) (log w) (cells w) s.

Definition record (e : Event) (w : World) : World :=
  set_log (log w ++ [e]) w.

(** The next scheduling decision: [true] resumes the earlier of two
    suspended tasks.  An exhausted schedule keeps answering [true]. *)
Definition choose (w : World) : bool * World :=
  match sched w with
  | [] => (true, w)
  | c :: s => (c, set_sched s w)
  end.

(** ** Promises and async calls *)

Inductive Task (A : Type) : Type :=
| Done (a : A)
| Await (turn : World -> World * Task A).

Arguments Done {A} a.
Arguments Await {A} turn.

Definition Async (A : Type) : Type := World -> World * Task A.

Definition ret {A} (a : A) : Async A := fun w => (w, Done a).

(** [graft t k]: what is left of a call whose remaining work is [t]
    followed by [k].  A settled [t] lets [k] run at once. *)
Fixpoint graft {A B} (t : Task A) (k : A -> Async B) (w : World)
  : World * Task B :=
  match t with
  | Done a => k a w
  | Await turn =>
      (w, Await (fun w2 => let (w3, t') := turn w2 in graft t' k w3))
  end.

(** Sequencing inside one call. *)
Definition bind {A B} (m : Async A) (k : A -> Async B) : Async B :=
  fun w => let (w1, t) := m w in graft t k w1.

(** [await m]: the caller always suspends; when [m] settled within the
    call the continuation still waits for its own turn, otherwise it
    runs in the turn that settles [m]. *)
Definition await {A B} (m : Async A) (k : A -> Async B) : Async B :=
  fun w =>
    let (w1, t) := m w in
    match t with
    | Done a => (w1, Await (fun w2 => k a w2))
    | Await _ => graft t k w1
    end.

Notation "x <- m ;; k" := (bind m (fun x => k))
  (at level 61, m at next level, right associativity).
Notation "x <~ m ;; k" := (await m (fun x => k))
  (at level 61, m at next level, right associativity).
Notation "m ;; k" := (bind m (fun _ => k))
  (at level 61, right associativity).

(** A synchronous effect. *)
Definition sync {A} (f : World -> World * A) : Async A :=
  fun w => let (w', a) := f w in (w', Done a).

Definition emit (e : Event) : Async unit :=
  sync (fun w => (record e w, tt)).

Definition when (b : bool) (m : Async unit) : Async unit :=
  if b then m else ret tt.

(** An operation of the outside world that settles in a later turn;
    [f] computes its result from the log at that time and [ev] is the
    record left of it. *)
Definition external {A} (f : list Event -> A) (ev : A -> Event) : Async A :=
  fun w => (w, Await (fun w' =>
    let r := f (log w') in (record (ev r) w', Done r))).

(** Local file-system reads ([lstat], [readdir], [readFile]): the file
    system is fixed, only the suspension remains. *)
Definition localRead {A} (a : A) : Async A :=
  fun w => (w, Await (fun w' => (w', Done a))).

(** Runs a task to the end.  Tasks are well-founded, so every schedule
    terminates. *)
Fixpoint run {A} (t : Task A) (w : World) : World * A :=
  match t with
  | Done a => (w, a)
  | Await turn => let (w', t') := turn w in run t' w'
  end.

Definition exec {A} (m : Async A) (w : World) : World * A :=
  let (w1, t) := m w in run t w1.

Fixpoint tmap {A B} (f : A -> B) (t : Task A) : Task B :=
  match t with
  | Done a => Done (f a)
  | Await turn => Await (fun w => let (w', t') := turn w in (w', tmap f t'))
  end.

(** Two pending promises side by side: each turn of the pair is a turn
    of one of them, chosen by the schedule while both are suspended. *)
Fixpoint par {A B} (t1 : Task A) : Task B -> Task (A * B) :=
  fix par_r (t2 : Task B) : Task (A * B) :=
    match t1, t2 with
    | Done a, Done b => Done (a, b)
    | Done a, Await turn2 =>
        Await (fun w => let (w', t2') := turn2 w in (w', par_r t2'))
    | Await turn1, Done b =>
        Await (fun w => let (w', t1') := turn1 w in (w', par t1' (Done b)))
    | Await turn1, Await turn2 =>
        Await (fun w =>
          let (c, w0) := choose w in
          if c then let (w', t1') := turn1 w0 in (w', par t1' t2)
          else let (w', t2') := turn2 w0 in (w', par_r t2'))
    end.

(** [Promise.all] over pending promises: results in argument order. *)
Fixpoint all {A} (ts : list (Task A)) : Task (list A) :=
  match ts with
  | [] => Done []
  | t :: ts' => tmap (fun p => fst p :: snd p) (par t (all ts'))
  end.

(** [xs.map(f)] for an async [f]: the calls are made one after the
    other, each running up to its first suspension. *)
Definition start_all {A B} (f : A -> Async B)
  : list A -> World -> World * list (Task B) :=
  fix go (xs : list A) (w : World) : World * list (Task B) :=
    match xs with
    | [] => (w, [])
    | x :: xs' =>
        let (w1, t) := f x w in
        let (w2, ts) := go xs' w1 in
        (w2, t :: ts)
    end.

(** [Promise.all(xs.map(f))]. *)
Definition promise_all_map {A B} (f : A -> Async B) (xs : list A)
  : Async (list B) :=
  fun w => let (w1, ts) := start_all f xs w in (w1, all ts).

(** JavaScript truthiness of an optional string ([if (!recycleBinUri)],
    [if (targetUri)]): absent and empty are both falsy. *)
Definition truthy (s : option string) : option string :=
  match s with
  | Some v => if String.eqb v "" then None else Some v
  | None => None
  end.

(** The success variable of one [handleFolderDrop] activation lives in
    [cells]; its callbacks hold the index. *)
Definition new_cell (b : bool) : Async nat :=
  sync (fun w => (set_cells (cells w ++ [b]) w, List.length (cells w))).

Fixpoint store (i : nat) (b : bool) (c : list bool) : list bool :=
  match c, i with
  | [], _ => []
  | _ :: c', O => b :: c'
  | x :: c', S i' => x :: store i' b c'
  end.

Definition write_cell (i : nat) (b : bool) : Async unit :=
  sync (fun w => (set_cells (store i b (cells w)) w, tt)).

Definition read_cell (i : nat) : Async bool :=
  sync (fun w => (w, nth i (cells w) true)).

(** What [closeFileIfOpen] returns: the literal [true], or the thenable
    of [window.tabGroups.close(tab)]. *)
Inductive Closing : Type :=
| ClosingTrue
| ClosingThenable (t : Tab).

(** [closing !== true] *)
Definition isThenable (c : Closing) : bool :=
  match c with
  | ClosingTrue => false
  | ClosingThenable _ => true
  end.

(** ** Traces under interleaving

    While promises run side by side the log is shared, so what one call
    did is not a segment of the log.  [traced own Q t] follows a task
    through every possible world: [own] is what the task itself has
    appended so far, and [Q] must hold of its result and of all it
    appended when it settles. *)
Fixpoint traced {A} (own : list Event) (Q : A -> list Event -> Prop)
    (t : Task A) : Prop :=
  match t with
  | Done a => Q a own
  | Await turn =>
      forall w, exists l,
        log (fst (turn w)) = log w ++ l /\
        traced (own ++ l) Q (snd (turn w))
  end.

Definition wp {A} (m : Async A) (own : list Event)
    (Q : A -> list Event -> Prop) : Prop :=
  forall w, exists l,
    log (fst (m w)) = log w ++ l /\ traced (own ++ l) Q (snd (m w)).

(** [Interleave l1 l2 l]: [l] is a shuffle of [l1] and [l2] that keeps
    the order of each. *)
Inductive Interleave {E : Type} : list E -> list E -> list E -> Prop :=
| Interleave_nil : Interleave [] [] []
| Interleave_left x l1 l2 l :
    Interleave l1 l2 l -> Interleave (x :: l1) l2 (x :: l)
| Interleave_right x l1 l2 l :
    Interleave l1 l2 l -> Interleave l1 (x :: l2) (x :: l).

Inductive Merge {E : Type} : list (list E) -> list E -> Prop :=
| Merge_nil : Merge [] []
| Merge_cons t ts tr' tr :
    Merge ts tr' -> Interleave t tr' tr -> Merge (t :: ts) tr.

(** The calls of a [Promise.all(xs.map(f))], each input with its
    result and with the events of its own call. *)
Inductive Joined {A B E : Type} (Q : A -> B -> list E -> Prop)
  : list A -> list B -> list (list E) -> Prop :=
| Joined_nil : Joined Q [] [] []
| Joined_cons x r tr xs rs trs :
    Q x r tr -> Joined Q xs rs trs ->
    Joined Q (x :: xs) (r :: rs) (tr :: trs).

Definition count (p : Event -> bool) (l : list Event) : nat :=
  List.length (filter p l).

Definition isRefresh (e : Event) : bool :=
  match e with EvRefresh => true | _ => false end.

Definition isShowError (e : Event) : bool :=
  match e with EvShowError _ _ => true | _ => false end.

(** ** A reference configuration

    Concrete collaborators on which the provider can be run.  The
    helpers follow [utils.ts] as the specification describes them
    (identity layer, section 4.1): a locator is built from the read-only
    flag, the item's name and its resource id; a link is looked up by
    method and relation.  The scripted model answers from a fixed
    hierarchy and fails exactly the operations on the listed names. *)
Definition demo_getLink (ls : list Link) (m r : string) : option Link :=
  find (fun l => String.eqb (method l) m && String.eqb (rel l) r) ls.

Definition demo_getResourceIdFromItem (item : ContentItem) : option string :=
  if String.eqb (uri item) ""
  then option_map link_uri (demo_getLink (links item) "GET" "self")
  else Some (uri item).

Definition demo_getUri (item : ContentItem) (readOnly : bool) : Uri :=
  mkUri (if readOnly then "sasReadOnly" else "sas")
        [name item]
        (String.append "id="
           match demo_getResourceIdFromItem item with
           | Some id => id
           | None => ""
           end).

Definition demo_folderTypes : list string :=
  ["RootFolder"; "folder"; "myFolder"; "favoritesFolder"; "userFolder";
   "userRoot"; "trashFolder"].

Definition demoUtils : Utils :=
  {| getUri := demo_getUri;
     getLink := demo_getLink;
     getResourceIdFromItem := demo_getResourceIdFromItem;
     isContainer := fun item =>
       existsb (String.eqb (type item)) demo_folderTypes;
     isItemInRecycleBin := isInRecycleBin;
     isReference := fun item => String.eqb (type item) "reference";
     TRASH_FOLDER_TYPE := "trashFolder";
     FAVORITES_FOLDER_TYPE := "favoritesFolder" |}.

Definition childOf (parent : ContentItem) (n ty : string) : ContentItem :=
  mkItem n ty (String.append (uri parent) (String.append "/" n))
         (uri parent) [] false.

Definition scriptedModel (bin : option ContentItem)
    (children : option ContentItem -> list ContentItem)
    (failing : list string) : ContentModel :=
  let fails := fun n => existsb (String.eqb n) failing in
  {| model_createFolder := fun _ parent n =>
       if fails n then None else Some (childOf parent n "folder");
     model_createFile := fun _ parent n _ =>
       if fails n then None else Some (childOf parent n "file");
     model_renameResource := fun _ item n =>
       if fails n then None
       else Some (mkItem n (type item) (uri item) (parentFolderUri item)
                         (links item) (isInRecycleBin item));
     model_delete := fun _ item => negb (fails (name item));
     model_moveTo := fun _ item _ => negb (fails (name item));
     model_addFavorite := fun _ item => negb (fails (name item));
     model_removeFavorite := fun _ item => negb (fails (name item));
     model_getChildren := fun _ item => children item;
     model_getDelegateFolder := fun _ n =>
       if String.eqb n "@myRecycleBin" then bin else None;
     model_getContentByUri := fun _ u => String.append "content?" (query u) |}.

(** A host whose user answers every close request the same way. *)
Definition answeringHost (closes : bool) : Host :=
  {| tabGroups_close := fun _ _ => closes |}.

Definition worldWith (ts : list Tab) (s : list bool) : World :=
  mkWorld ts [] [] s.

Definition myFolder : ContentItem :=
  mkItem "My Folder" "myFolder" "/folders/folders/my" "" [] false.

Definition recycleBin : ContentItem :=
  mkItem "Recycle Bin" "trashFolder" "/folders/folders/bin" ""
         [mkLink "GET" "self" "/folders/folders/bin"] false.

Definition favorites : ContentItem :=
  mkItem "My Favorites" "favoritesFolder" "/folders/folders/fav" "" [] false.

Definition programSas : ContentItem :=
  mkItem "program.sas" "file" "/files/files/1" (uri myFolder) [] false.


(** An item sitting in the recycle bin, where it came from [myFolder]. *)
Definition trashedSas : ContentItem :=
  mkItem "old.sas" "file" "/files/files/3" (uri recycleBin)
         [mkLink "GET" "previousParent" (uri myFolder)] true.

(** A second item in the recycle bin. *)
Definition trashedLog : ContentItem :=
  mkItem "old.log" "file" "/files/files/4" (uri recycleBin)
         [mkLink "GET" "previousParent" (uri myFolder)] true.

(** A favorite pointing at [programSas]. *)
Definition programFavorite : ContentItem :=
  mkItem "program.sas" "reference" "/files/files/1" (uri favorites) [] false.

(** A recycle bin whose self link is missing. *)
Definition unaddressedBin : ContentItem :=
  mkItem "Recycle Bin" "trashFolder" "" "" [] false.

(** A folder without a resource id. *)
Definition unaddressedFolder : ContentItem :=
  mkItem "Shared" "folder" "" "" [] false.

(** [programSas] open in an editor, and the read-only view of the same
    file under another name. *)
Definition programTab : Tab :=
  mkTab 1 (TabInputText (demo_getUri programSas false)).

Definition staleTab : Tab :=
  mkTab 2 (TabInputText
             (mkUri "sasReadOnly" ["renamed-elsewhere.sas"] "id=/files/files/1")).

(** A selected folder with two selected files; the model knows a third
    file in it. *)
Definition folderA : ContentItem :=
  mkItem "A" "folder" "/folders/folders/a" (uri myFolder) [] false.

Definition fileX : ContentItem := childOf folderA "x.sas" "file".
Definition fileY : ContentItem := childOf folderA "y.sas" "file".
Definition fileZ : ContentItem := childOf folderA "z.sas" "file".

Definition hierarchy (item : option ContentItem) : list ContentItem :=
  match item with
  | Some f => if String.eqb (uri f) (uri folderA)
              then [fileX; fileY; fileZ] else []
  | None => [myFolder]
  end.

Definition downloads : Uri := mkUri "file" ["home"; "downloads"] "".

(** The model in which every operation succeeds. *)
Definition plainModel : ContentModel :=
  scriptedModel (Some recycleBin) hierarchy [].

(** A folder whose name ends like a program's, and where the extension
    keeps its icons. *)
Definition macrosFolder : ContentItem :=
  mkItem "macros.sas" "folder" "/folders/folders/m" (uri myFolder) [] false.

Definition extensionRoot : Uri := mkUri "file" ["extension"] "".

(** Folders above files, the selected folder [folderA] below the
    others. *)
Definition depth (item : ContentItem) : nat :=
  if isContainer demoUtils item
  then if String.eqb (uri item) (uri folderA) then 1 else 2
  else 0.

(** ** The provider *)

Section ContentDataProvider.

Variable U : Utils.
Variable model : ContentModel.
Variable host : Host.

(** [this.refresh()] *)
Definition refresh : Async unit := emit EvRefresh.

(** The predicate of [tabs.find] in [closeFileIfOpen]. *)
Definition sameFileId (fileUri : Uri) (tab : Tab) : bool :=
  match input tab with
  | TabInputText u => String.eqb (query u) (query fileUri)
  | TabInputNotebook u => String.eqb (query u) (query fileUri)
  | TabInputOther => false
  end.

(** [closeFileIfOpen(item)] is not async: it looks the tab up and asks
    the host to close it within the caller's turn. *)
Definition closeFileIfOpen (item : ContentItem) : Async Closing :=
  sync (fun w =>
    let fileUri := getUri U item (isItemInRecycleBin U item) in
    match find (sameFileId fileUri) (tabs w) with
    | Some tab => (record (EvCloseRequest tab) w, ClosingThenable tab)
    | None => (w, ClosingTrue)
    end).

Definition removeTab (t : Tab) (ts : list Tab) : list Tab :=
  filter (fun t' => negb (Nat.eqb (tab_id t') (tab_id t))) ts.

(** [await closing] *)
Definition settle (closing : Closing) : Async bool :=
  match closing with
  | ClosingTrue => localRead true
  | ClosingThenable tab =>
      fun w => (w, Await (fun w' =>
        let closed := tabGroups_close host (log w') tab in
        let w'' := if closed then set_tabs (removeTab tab (tabs w')) w' else w' in
        (record (EvCloseResult tab closed) w'', Done closed)))
  end.

Definition createFolder (item : ContentItem) (folderName : string)
  : Async (option Uri) :=
  newItem <~ external (fun l => model_createFolder model l item folderName)
                      (EvCreateFolder item folderName) ;;
  match newItem with
  | Some n => refresh ;; ret (Some (getUri U n false))
  | None => ret None
  end.

Definition createFile (item : ContentItem) (fileName : string)
    (buffer : option string) : Async (option Uri) :=
  newItem <~ external (fun l => model_createFile model l item fileName buffer)
                      (EvCreateFile item fileName buffer) ;;
  match newItem with
  | Some n => refresh ;; ret (Some (getUri U n false))
  | None => ret None
  end.

Definition renameResource (item : ContentItem) (newName : string)
  : Async (option Uri) :=
  closing <- closeFileIfOpen item ;;
  closed <~ settle closing ;;
  if negb closed then ret None
  else
    newItem <~ external (fun l => model_renameResource model l item newName)
                        (EvRename item newName) ;;
    match newItem with
    | Some n =>
        let newUri := getUri U n false in
        when (isThenable closing) (emit (EvOpen newUri)) ;;
        ret (Some newUri)
    | None => ret None
    end.

Definition deleteResource (item : ContentItem) : Async bool :=
  closing <- closeFileIfOpen item ;;
  closed <~ settle closing ;;
  if negb closed then ret false
  else
    success <~ external (fun l => model_delete model l item) (EvDelete item) ;;
    when success refresh ;;
    ret success.

(** [this.model.getDelegateFolder(name)], a synchronous read. *)
Definition getDelegateFolder (folderName : string)
  : Async (option ContentItem) :=
  sync (fun w => (w, model_getDelegateFolder model (log w) folderName)).

(** [getLink(links, "GET", rel)?.uri] *)
Definition linkUri (ls : list Link) (r : string) : option string :=
  option_map link_uri (getLink U ls "GET" r).

Definition moveTo (item : ContentItem) (targetUri : string) : Async bool :=
  external (fun l => model_moveTo model l item targetUri)
           (EvMoveTo item targetUri).

Definition recycleResource (item : ContentItem) : Async bool :=
  recycleBin <- getDelegateFolder "@myRecycleBin" ;;
  match recycleBin with
  | None => r <~ deleteResource item ;; ret r
  | Some bin =>
      match truthy (linkUri (links bin) "self") with
      | None => ret false
      | Some recycleBinUri =>
          closing <- closeFileIfOpen item ;;
          closed <~ settle closing ;;
          if negb closed then ret false
          else
            success <~ moveTo item recycleBinUri ;;
            when success (refresh ;; emit (EvDidChange (getUri U item true))) ;;
            ret success
      end
  end.

Definition restoreResource (item : ContentItem) : Async bool :=
  match truthy (linkUri (links item) "previousParent") with
  | None => ret false
  | Some previousParentUri =>
      closing <- closeFileIfOpen item ;;
      closed <~ settle closing ;;
      if negb closed then ret false
      else
        success <~ moveTo item previousParentUri ;;
        when success refresh ;;
        ret success
  end.

(** [this.getChildren(item)] *)
Definition getChildren (item : option ContentItem)
  : Async (list ContentItem) :=
  external (fun l => model_getChildren model l item) (EvGetChildren item).

Definition emptyRecycleBin : Async bool :=
  recycleBin <- getDelegateFolder "@myRecycleBin" ;;
  children <~ getChildren recycleBin ;;
  result <~ promise_all_map deleteResource children ;;
  let success := Nat.eqb (List.length result) (List.length children) in
  when success refresh ;;
  ret success.

Definition addToMyFavorites (item : ContentItem) : Async bool :=
  success <~ external (fun l => model_addFavorite model l item)
                      (EvAddFavorite item) ;;
  when success refresh ;;
  ret success.

Definition removeFromMyFavorites (item : ContentItem) : Async bool :=
  success <~ external (fun l => model_removeFavorite model l item)
                      (EvRemoveFavorite item) ;;
  when success refresh ;;
  ret success.

(** [handleCreationResponse] has no [await]: called without one, all of
    it happens within the caller's turn. *)
Definition handleCreationResponse (resource : ContentItem)
    (newUri : option Uri) (errorMessage : Message) : Async unit :=
  match newUri with
  | None => emit (EvShowError errorMessage None)
  | Some _ => emit (EvReveal resource)
  end.

(** [handleFolderDrop(target, path, displayErrorMessages)] together
    with the callback it maps over the directory's entries.  [path] is
    given by its base name and its listing.  The callback is the
    recursive knot: for a subdirectory it runs the whole of
    [handleFolderDrop] (with the default [displayErrorMessages]) and
    assigns the result to the enclosing [success]. *)
Definition handleFolderDropWith
    (callback : ContentItem -> nat -> bool -> FsEntry -> Async unit)
    (target : ContentItem) (dname : string) (entries : list FsEntry)
    (displayErrorMessages : bool) : Async bool :=
  folder <~ external (fun l => model_createFolder model l target dname)
                     (EvCreateFolder target dname) ;;
  success <- new_cell true ;;
  match folder with
  | None =>
      when displayErrorMessages (emit (EvShowError FileDropError (Some dname))) ;;
      ret false
  | Some folder =>
      filesOrFolders <~ localRead entries ;;
      _ <~ promise_all_map (callback folder success displayErrorMessages)
                           filesOrFolders ;;
      read_cell success
  end.

Fixpoint folderDropEntry (folder : ContentItem) (success : nat)
    (displayErrorMessages : bool) (fileOrFolder : FsEntry) {struct fileOrFolder}
  : Async unit :=
  match fileOrFolder with
  | FsDir dname entries =>
      isDirectory <~ localRead true ;;
      r <~ handleFolderDropWith folderDropEntry folder dname entries true ;;
      write_cell success r
  | FsFile fname content =>
      isDirectory <~ localRead false ;;
      buffer <~ localRead content ;;
      fileCreated <~ createFile folder fname (Some buffer) ;;
      match fileCreated with
      | Some _ => ret tt
      | None =>
          write_cell success false ;;
          when displayErrorMessages
            (emit (EvShowError FileDropError (Some fname)))
      end
  end.

Definition handleFolderDrop (target : ContentItem) (dname : string)
    (entries : list FsEntry) (displayErrorMessages : bool) : Async bool :=
  handleFolderDropWith folderDropEntry target dname entries
    displayErrorMessages.

(** [uploadUrisToTarget]: the [for] loop, carrying [failedUploads], then
    the consolidated message.  [lstatSync] does not suspend. *)
Fixpoint uploadLoop (uris : list FsEntry) (target : ContentItem)
    (failedUploads : list string) : Async (list string) :=
  match uris with
  | [] => ret failedUploads
  | u :: rest =>
      let fileName := basename u in
      match u with
      | FsDir dname entries =>
          success <~ handleFolderDrop target dname entries false ;;
          uploadLoop rest target
            (if success then failedUploads else failedUploads ++ [fileName])
      | FsFile _ content =>
          file <~ localRead content ;;
          newUri <~ createFile target fileName (Some file) ;;
          uploadLoop rest target
            (match newUri with
             | Some _ => failedUploads
             | None => failedUploads ++ [fileName]
             end)
      end
  end.

Definition reportFailedUploads (target : ContentItem)
    (failedUploads : list string) : Async unit :=
  if Nat.ltb 0 (List.length failedUploads)
  then handleCreationResponse target None FileUploadError
  else ret tt.

Definition uploadUrisToTarget (uris : list FsEntry) (target : ContentItem)
  : Async unit :=
  failedUploads <- uploadLoop uris target [] ;;
  reportFailedUploads target failedUploads.

(** [childrenSelections(selection, allSelections)] *)
Definition foundSelections (selection : ContentItem)
    (allSelections : list ContentItem) : list ContentItem :=
  filter (fun foundSelection =>
            String.eqb (parentFolderUri foundSelection) (uri selection))
         allSelections.

Definition childrenSelections (selection : ContentItem)
    (allSelections : list ContentItem) : Async (list ContentItem) :=
  let found := foundSelections selection allSelections in
  if Nat.ltb 0 (List.length found) then ret found
  else getChildren (Some selection).

(** [this.readFile(uri)]; the text encoding is left implicit. *)
Definition readFile (u : Uri) : Async string :=
  external (fun l => model_getContentByUri model l u) (EvGetContent u).

(** [downloadContentItems(folderUri, selections, allSelections)].  The
    recursion follows the remote hierarchy, which the provider only
    learns call by call, so it is bounded by [fuel]; [None] reports that
    the bound was reached. *)
Fixpoint downloadContentItems (fuel : nat) (folderUri : Uri)
    (selections allSelections : list ContentItem) : Async (option unit) :=
  match fuel with
  | O => ret None
  | S fuel' =>
      (fix loop (sels : list ContentItem) : Async (option unit) :=
         match sels with
         | [] => ret (Some tt)
         | selection :: rest =>
             if isContainer U selection then
               let newFolderUri := joinPath folderUri (name selection) in
               selectionsWithinFolder <~
                 childrenSelections selection allSelections ;;
               _ <~ external (fun _ => tt)
                      (fun _ => EvFsCreateDirectory newFolderUri) ;;
               r <~ downloadContentItems fuel' newFolderUri
                      selectionsWithinFolder allSelections ;;
               match r with
               | None => ret None
               | Some _ => loop rest
               end
             else
               bytes <~ readFile (getUri U selection false) ;;
               _ <~ external (fun _ => tt)
                      (fun _ => EvFsWriteFile
                                  (joinPath folderUri (name selection)) bytes) ;;
               loop rest
         end) selections
  end.

Definition handleContentItemDrop (target item : ContentItem) : Async unit :=
  let finish (success : bool) (message : Message) : Async unit :=
    when (negb success) (emit (EvShowError message (Some (name item)))) in
  if isInRecycleBin item then finish false FileDragFromTrashError
  else if isReference U item then finish false FileDragFromFavorites
  else if String.eqb (type target) (TRASH_FOLDER_TYPE U) then
    success <~ recycleResource item ;;
    finish success FileDropError
  else if String.eqb (type target) (FAVORITES_FOLDER_TYPE U) then
    success <~ addToMyFavorites item ;;
    finish success FileDropError
  else
    success <-
      match truthy (getResourceIdFromItem U target) with
      | Some targetUri => r <~ moveTo item targetUri ;; ret r
      | None => ret false
      end ;;
    when success refresh ;;
    finish success FileDropError.

(** The callback of [handleDataTransferItemDrop], one dropped uri. *)
Definition dataTransferEntry (target : ContentItem) (e : FsEntry)
  : Async unit :=
  match e with
  | FsDir dname entries =>
      isDirectory <~ localRead true ;;
      success <~ handleFolderDrop target dname entries true ;;
      when success refresh
  | FsFile fname content =>
      isDirectory <~ localRead false ;;
      buffer <~ localRead content ;;
      fileCreated <~ createFile target fname (Some buffer) ;;
      match fileCreated with
      | Some _ => ret tt
      | None => emit (EvShowError FileDropError (Some fname))
      end
  end.

Definition handleDataTransferItemDrop (target : ContentItem)
    (item : list FsEntry) : Async unit :=
  _ <~ promise_all_map (dataTransferEntry target) item ;;
  ret tt.

(** [handleDrop]: the loop over [dropMimeTypes], unrolled — first the
    content items, then the uri list. *)
Definition handleDrop (target : ContentItem) (sources : DataTransfer)
  : Async unit :=
  match dt_contentItems sources with
   | None => ret tt
   | Some value =>
       _ <~ promise_all_map
              (fun contentItem =>
                 r <~ handleContentItemDrop target contentItem ;; ret r)
              value ;;
       ret tt
   end ;;
  match dt_uriList sources with
  | None => ret tt
  | Some value =>
      _ <~ handleDataTransferItemDrop target value ;;
      ret tt
  end.


(** The tab [closeFileIfOpen] finds for an item, if any. *)
Definition openTab (item : ContentItem) (ts : list Tab) : option Tab :=
  find (sameFileId (getUri U item (isItemInRecycleBin U item))) ts.

(** A tab showing a text document or a notebook at [u]. *)
Definition showsDocument (tab : Tab) (u : Uri) : Prop :=
  input tab = TabInputText u \/ input tab = TabInputNotebook u.

(** What a call appends to the log when it runs on its own from [w]. *)
Definition appends {A} (m : Async A) (w : World) (tr : list Event) : Prop :=
  log (fst (exec m w)) = log w ++ tr.

(** The local path an event writes to, if it writes. *)
Definition fsTarget (e : Event) : option Uri :=
  match e with
  | EvFsCreateDirectory u => Some u
  | EvFsWriteFile u _ => Some u
  | _ => None
  end.


(** A model mutation that went through. *)
Definition isMutationSuccess (e : Event) : bool :=
  match e with
  | EvDelete _ true => true
  | EvMoveTo _ _ true => true
  | EvAddFavorite _ true => true
  | _ => false
  end.

(** What a mutation that answers [ok] leaves in the log: one refresh
    after one successful model call, or neither; never a message. *)
Definition Mutation (ok : bool) (d : list Event) : Prop :=
  count isMutationSuccess d = (if ok then 1 else 0) /\
  count isRefresh d = (if ok then 1 else 0) /\
  count isShowError d = 0.

(** The events of one dropped content item: a successful mutation with
    its own refresh, or a single error message and no refresh. *)
Definition ItemOutcome (d : list Event) : Prop :=
  (count isMutationSuccess d = 1 /\ count isRefresh d = 1 /\
   count isShowError d = 0) \/
  (count isMutationSuccess d = 0 /\ count isRefresh d = 0 /\
   count isShowError d = 1).

Definition isUploadError (e : Event) : bool :=
  match e with
  | EvShowError FileUploadError _ => true
  | _ => false
  end.

(** [ev] is the model call that creates the entry [e] inside [folder]. *)
Definition creates (folder : ContentItem) (e : FsEntry) (ev : Event) : Prop :=
  match e with
  | FsFile fname content =>
      exists res, ev = EvCreateFile folder fname (Some content) res
  | FsDir dname _ => exists res, ev = EvCreateFolder folder dname res
  end.

(** What the import of one directory entry leaves in the log. *)
Definition EntryImported (folder : ContentItem) (e : FsEntry)
    (d : list Event) : Prop :=
  Exists (creates folder e) d /\ count isUploadError d = 0.

(** What [handleFolderDrop] leaves in the log after the folder's own
    creation answered [created]. *)
Definition FolderImported (dname : string) (entries : list FsEntry)
    (displayErrorMessages : bool) (created : option ContentItem)
    (ok : bool) (rest : list Event) : Prop :=
  count isUploadError rest = 0 /\
  match created with
  | None =>
      ok = false /\
      rest = if displayErrorMessages
             then [EvShowError FileDropError (Some dname)] else []
  | Some folder => forall e, In e entries -> Exists (creates folder e) rest
  end.

Definition isCloseEvent (e : Event) : bool :=
  match e with
  | EvCloseRequest _ => true
  | EvCloseResult _ _ => true
  | _ => false
  end.

(** The shape of what a mutation appends: either it asks for no close
    at all, or it starts with one close request and its answer, asks
    for no other close, and stops there when the answer is no. *)
Definition CloseFirst (tr : list Event) : Prop :=
  Forall (fun e => isCloseEvent e = false) tr \/
  exists tab closed rest,
    tr = EvCloseRequest tab :: EvCloseResult tab closed :: rest /\
    Forall (fun e => isCloseEvent e = false) rest /\
    (closed = false -> rest = []).

(** [m], run from [w] on behalf of [item], keeps the close-before-mutate
    discipline; [gaveUp] is how its result reports a declined close. *)
Definition ClosesEditorFirst {A} (item : ContentItem) (m : Async A)
    (gaveUp : A -> Prop) (w : World) : Prop :=
  exists tr,
    appends m w tr /\ CloseFirst tr /\
    (forall tab rest,
       tr = EvCloseRequest tab :: rest -> openTab item (tabs w) = Some tab) /\
    (forall tab,
       In (EvCloseResult tab false) tr ->
       gaveUp (snd (exec m w)) /\ tabs (fst (exec m w)) = tabs w).


Definition isFile (e : FsEntry) : Prop :=
  match e with
  | FsFile _ _ => True
  | FsDir _ _ => False
  end.

(** The events an import may produce: creations, refreshes, messages. *)
Definition isImportEvent (e : Event) : bool :=
  match e with
  | EvCreateFolder _ _ _ => true
  | EvCreateFile _ _ _ _ => true
  | EvRefresh => true
  | EvShowError _ _ => true
  | _ => false
  end.

(** The events a drop of content items may produce. *)
Definition isItemDropEvent (e : Event) : bool :=
  match e with
  | EvCloseRequest _ => true
  | EvCloseResult _ _ => true
  | EvDelete _ _ => true
  | EvMoveTo _ _ _ => true
  | EvAddFavorite _ _ => true
  | EvRefresh => true
  | EvDidChange _ => true
  | EvShowError _ _ => true
  | _ => false
  end.

Definition only (p : Event -> bool) (d : list Event) : Prop :=
  Forall (fun e => p e = true) d.

(** What the drop of one local uri on [target] leaves in the log: the
    request to create it there; for a file, one refresh when it was
    created or else one message naming it. *)
Definition UriDropped (target : ContentItem) (e : FsEntry)
    (d : list Event) : Prop :=
  Exists (creates target e) d /\
  only isImportEvent d /\
  count isUploadError d = 0 /\
  match e with
  | FsFile fname _ =>
      count isRefresh d + count isShowError d = 1 /\
      (forall m arg, In (EvShowError m arg) d ->
         m = FileDropError /\ arg = Some fname)
  | FsDir _ _ => True
  end.

(** What a dropped uri list leaves in the log. *)
Definition UrisDropped (target : ContentItem) (entries : list FsEntry)
    (tr : list Event) : Prop :=
  (forall e, In e entries -> Exists (creates target e) tr) /\
  only isImportEvent tr /\
  count isUploadError tr = 0 /\
  (Forall isFile entries ->
   count isRefresh tr + count isShowError tr = List.length entries).

(** The names of the files whose creation the log shows as requested,
    and of those whose creation it shows as failed, in order. *)
Fixpoint requestedFiles (tr : list Event) : list string :=
  match tr with
  | [] => []
  | EvCreateFile _ n _ _ :: rest => n :: requestedFiles rest
  | _ :: rest => requestedFiles rest
  end.

Fixpoint failedFiles (tr : list Event) : list string :=
  match tr with
  | [] => []
  | EvCreateFile _ n _ None :: rest => n :: failedFiles rest
  | _ :: rest => failedFiles rest
  end.

(** The local paths a log shows as written, in order. *)
Definition writtenPaths (tr : list Event) : list Uri :=
  flat_map (fun e => match fsTarget e with Some u => [u] | None => [] end) tr.

(** ** Invariants under interleaving

    [keeps Inv Q t]: resumed in worlds that satisfy [Inv], the task [t]
    re-establishes [Inv] at the end of every turn that leaves it
    suspended, and establishes [Q] on its result at the end of the turn
    that settles it.  A task that is already settled only remembers
    that [Q] held. *)
Fixpoint keeps {A} (Inv : World -> Prop) (Q : A -> World -> Prop)
    (t : Task A) : Prop :=
  match t with
  | Done a => exists w, Q a w
  | Await turn =>
      forall w, Inv w ->
        match snd (turn w) with
        | Done a => Q a (fst (turn w))
        | Await _ => Inv (fst (turn w))
        end /\
        keeps Inv Q (snd (turn w))
  end.

(** [hoare Inv P m Q]: the same for a call started in a world that
    satisfies [P]. *)
Definition hoare {A} (Inv P : World -> Prop) (m : Async A)
    (Q : A -> World -> Prop) : Prop :=
  forall w, P w ->
    match snd (m w) with
    | Done a => Q a (fst (m w))
    | Await _ => Inv (fst (m w))
    end /\
    keeps Inv Q (snd (m w)).

(** A call that cannot settle before its first suspension. *)
Definition suspends {A} (m : Async A) : Prop :=
  forall w, exists turn, snd (m w) = Await turn.

(** A creation the model refused. *)
Definition isFailedCreation (e : Event) : bool :=
  match e with
  | EvCreateFolder _ _ None => true
  | EvCreateFile _ _ _ None => true
  | _ => false
  end.

Definition HasFailure (tr : list Event) : Prop :=
  Exists (fun e => isFailedCreation e = true) tr.

(** Every success variable allocated from [base] on that holds [false]
    is backed by a creation that failed since position [start] of the
    log. *)
Definition FlagsJustified (base start : nat) (w : World) : Prop :=
  base <= List.length (cells w) /\
  start <= List.length (log w) /\
  forall i, base <= i -> nth i (cells w) true = false ->
            HasFailure (skipn start (log w)).

(** The success variable [cell] holds [false] exactly when a creation
    has failed since position [start] of the log. *)
Definition FlagExact (cell start : nat) (w : World) : Prop :=
  cell < List.length (cells w) /\
  start <= List.length (log w) /\
  (nth cell (cells w) true = false <-> HasFailure (skipn start (log w))).

(** ** Tree icons

    [iconPathForItem] picks the icon of a tree node.  Names are byte
    strings; ["."] and the ASCII letters are single bytes that occur
    nowhere inside a multi-byte character, so splitting at ["."] and
    comparing the lowered extension with ["sas"] agree with the
    JavaScript string operations. *)
Definition dot : Ascii.ascii :=
  Ascii.Ascii false true true true false true false false.

Fixpoint split (sep : Ascii.ascii) (s : string) : list string :=
  match s with
  | EmptyString => [EmptyString]
  | String c rest =>
      if Ascii.eqb c sep then EmptyString :: split sep rest
      else match split sep rest with
           | segment :: segments => String c segment :: segments
           | [] => [String c EmptyString]
           end
  end.

Definition pop (segments : list string) : string :=
  last segments EmptyString.

Definition lowerChar (c : Ascii.ascii) : Ascii.ascii :=
  let n := Ascii.nat_of_ascii c in
  if Nat.leb 65 n && Nat.leb n 90 then Ascii.ascii_of_nat (n + 32) else c.

Fixpoint toLowerCase (s : string) : string :=
  match s with
  | EmptyString => EmptyString
  | String c rest => String (lowerChar c) (toLowerCase rest)
  end.

Inductive IconPath : Type :=
| ThemeIconFile
| IconPair (dark light : Uri).

Section Icons.

Variable extensionUri : Uri.
Variable getTypeName : ContentItem -> string.
Variable ROOT_FOLDER_TYPE : string.

Definition themed (icon : string) : IconPath :=
  IconPair
    (joinPath extensionUri ("icons/dark/" ++ icon ++ "Dark.svg")%string)
    (joinPath extensionUri ("icons/light/" ++ icon ++ "Light.svg")%string).

Definition iconPathForItem (item : ContentItem) : IconPath :=
  let icon :=
    if isContainer U item then
      let type := getTypeName item in
      if String.eqb type ROOT_FOLDER_TYPE then "sasFolders"
      else if String.eqb type (TRASH_FOLDER_TYPE U) then "delete"
      else if String.eqb type (FAVORITES_FOLDER_TYPE U) then "favoritesFolder"
      else "folder"
    else
      let extension := toLowerCase (pop (split dot (name item))) in
      if String.eqb extension "sas" then "sasProgramFile" else ""
  in
  if negb (String.eqb icon "") then themed icon else ThemeIconFile.

End Icons.

(** The segments of a name joined back with dots. *)
Fixpoint join (segments : list string) : string :=
  match segments with
  | [] => EmptyString
  | [segment] => segment
  | segment :: rest => (segment ++ "." ++ join rest)%string
  end.

Fixpoint noDot (s : string) : bool :=
  match s with
  | EmptyString => true
  | String c rest => negb (Ascii.eqb c dot) && noDot rest
  end.

(** A name whose part after the last dot — the whole name when it has
    no dot — spells "sas" in any mix of cases. *)
Definition hasSasExtension (fileName : string) : Prop :=
  exists ext, toLowerCase ext = "sas" /\
    (fileName = ext \/ exists stem, fileName = (stem ++ "." ++ ext)%string).

(** ** The close exchange

    How a mutation of [item] begins when it is run from [w]: the
    request to close the first tab that carries the item's file id,
    and the host's answer to it — or nothing at all when no tab carries
    it.  The second component tells whether the mutation goes on. *)
Definition closeExchange (item : ContentItem) (w : World)
  : list Event * bool :=
  match openTab item (tabs w) with
  | None => ([], true)
  | Some tab =>
      let closed := tabGroups_close host (log w ++ [EvCloseRequest tab]) tab in
      ([EvCloseRequest tab; EvCloseResult tab closed], closed)
  end.

(** ** The trace logic *)

Lemma Task_induction A (P : Task A -> Prop) :
  (forall a, P (Done a)) ->
  (forall turn, (forall w, P (snd (turn w))) -> P (Await turn)) ->
  forall t, P t.
Proof.
  intros HD HA. fix IH 1. intros [a | turn].
  - apply HD.
  - apply HA. intro w. apply IH.
Qed.

Lemma traced_weaken A (Q R : A -> list Event -> Prop) :
  (forall a tr, Q a tr -> R a tr) ->
  forall t own, traced own Q t -> traced own R t.
Proof.
  intros HQR t. induction t as [a | turn IH] using Task_induction;
    intros own H; cbn in *.
  - auto.
  - intro w. destruct (H w) as (l & Hl & Ht). exists l. split; auto.
Qed.

Lemma run_traced A (Q : A -> list Event -> Prop) (t : Task A) :
  forall own w, traced own Q t ->
  exists l, log (fst (run t w)) = log w ++ l /\ Q (snd (run t w)) (own ++ l).
Proof.
  induction t as [a | turn IH] using Task_induction; intros own w H; cbn in *.
  - exists []. rewrite !app_nil_r. auto.
  - destruct (H w) as (l & Hl & Ht).
    destruct (turn w) as [w' t'] eqn:Et. cbn in *.
    specialize (IH w). rewrite Et in IH. cbn in IH.
    destruct (IH _ w' Ht) as (l' & Hl' & HQ).
    exists (l ++ l'). rewrite Hl', Hl, !app_assoc. auto.
Qed.

Lemma exec_wp A (m : Async A) (Q : A -> list Event -> Prop) w :
  wp m [] Q ->
  exists tr, log (fst (exec m w)) = log w ++ tr /\ Q (snd (exec m w)) tr.
Proof.
  intros H. unfold exec. destruct (H w) as (l & Hl & Ht).
  destruct (m w) as [w1 t]. cbn in *.
  destruct (run_traced _ Q t _ w1 Ht) as (l' & Hl' & HQ).
  exists (l ++ l'). rewrite Hl', Hl, app_assoc. auto.
Qed.

Lemma graft_traced A B (k : A -> Async B) (Q : A -> list Event -> Prop)
    (R : B -> list Event -> Prop) :
  (forall a tr, Q a tr -> wp (k a) tr R) ->
  forall t own w, traced own Q t ->
  exists l, log (fst (graft t k w)) = log w ++ l /\
            traced (own ++ l) R (snd (graft t k w)).
Proof.
  intros Hk t. induction t as [a | turn IH] using Task_induction;
    intros own w H; cbn in *.
  - apply (Hk a own H w).
  - exists []. rewrite !app_nil_r. split; [reflexivity|].
    intro w2. destruct (H w2) as (l & Hl & Ht).
    specialize (IH w2). destruct (turn w2) as [w3 t']. cbn in *.
    destruct (IH _ w3 Ht) as (l' & Hl' & HR).
    exists (l ++ l'). rewrite Hl', Hl, !app_assoc. auto.
Qed.

Lemma wp_ret A (a : A) own (Q : A -> list Event -> Prop) :
  Q a own -> wp (ret a) own Q.
Proof. intros H w. exists []. cbn. rewrite !app_nil_r. auto. Qed.

Lemma wp_bind A B (m : Async A) (k : A -> Async B) own
    (R : B -> list Event -> Prop) :
  wp m own (fun a tr => wp (k a) tr R) -> wp (bind m k) own R.
Proof.
  intros H w. unfold bind. destruct (H w) as (l & Hl & Ht).
  destruct (m w) as [w1 t]. cbn in *.
  destruct (graft_traced _ _ k _ R (fun a tr H => H) t _ w1 Ht) as (l' & Hl' & HR).
  exists (l ++ l'). rewrite Hl', Hl, !app_assoc. auto.
Qed.

Lemma wp_await A B (m : Async A) (k : A -> Async B) own
    (R : B -> list Event -> Prop) :
  wp m own (fun a tr => wp (k a) tr R) -> wp (await m k) own R.
Proof.
  intros H w. unfold await. destruct (H w) as (l & Hl & Ht).
  destruct (m w) as [w1 [a | turn]]; cbn [fst snd] in *.
  - exists l. split; [assumption|]. cbn. intro w2. cbn in Ht. apply Ht.
  - destruct (graft_traced _ _ k _ R (fun a tr H => H) (Await turn) _ w1 Ht)
      as (l' & Hl' & HR).
    exists (l ++ l'). rewrite Hl', Hl, !app_assoc. auto.
Qed.

Lemma wp_weaken A (m : Async A) own (Q R : A -> list Event -> Prop) :
  (forall a tr, Q a tr -> R a tr) -> wp m own Q -> wp m own R.
Proof.
  intros HQR H w. destruct (H w) as (l & Hl & Ht). exists l. split; auto.
  eapply traced_weaken; eauto.
Qed.

Lemma wp_emit e own (Q : unit -> list Event -> Prop) :
  Q tt (own ++ [e]) -> wp (emit e) own Q.
Proof. intros H w. exists [e]. cbn. auto. Qed.

Lemma wp_when b m own (Q : unit -> list Event -> Prop) :
  (b = true -> wp m own Q) -> (b = false -> Q tt own) -> wp (when b m) own Q.
Proof. destruct b; cbn; intros H1 H2; [auto | apply wp_ret; auto]. Qed.

Lemma wp_external A (f : list Event -> A) ev own
    (Q : A -> list Event -> Prop) :
  (forall r, Q r (own ++ [ev r])) -> wp (external f ev) own Q.
Proof.
  intros H w. exists []. cbn. rewrite !app_nil_r. split; [reflexivity|].
  intro w'. exists [ev (f (log w'))]. cbn. auto.
Qed.

Lemma wp_localRead A (a : A) own (Q : A -> list Event -> Prop) :
  Q a own -> wp (localRead a) own Q.
Proof.
  intros H w. exists []. cbn. rewrite !app_nil_r. split; [reflexivity|].
  intro w'. exists []. cbn. rewrite !app_nil_r. auto.
Qed.

(** A synchronous step that leaves the log alone. *)
Lemma wp_sync_silent A (f : World -> World * A) own
    (Q : A -> list Event -> Prop) :
  (forall w, log (fst (f w)) = log w) ->
  (forall w, Q (snd (f w)) own) ->
  wp (sync f) own Q.
Proof.
  intros Hl HQ w. exists []. unfold sync. specialize (Hl w). specialize (HQ w).
  destruct (f w) as [w' a]. cbn in *. rewrite !app_nil_r. auto.
Qed.

Lemma traced_frame A (Q : A -> list Event -> Prop) pre :
  forall t own, traced own Q t ->
  traced (pre ++ own) (fun a tr => exists tr', tr = pre ++ tr' /\ Q a tr') t.
Proof.
  intro t. induction t as [a | turn IH] using Task_induction;
    intros own H; cbn in *.
  - eauto.
  - intro w. destruct (H w) as (l & Hl & Ht). exists l. split; [assumption|].
    rewrite <- app_assoc. auto.
Qed.

Lemma traced_tmap A B (f : A -> B) (R : B -> list Event -> Prop) :
  forall t own, traced own (fun a tr => R (f a) tr) t -> traced own R (tmap f t).
Proof.
  intro t. induction t as [a | turn IH] using Task_induction;
    intros own H; cbn in *.
  - assumption.
  - intro w. destruct (H w) as (l & Hl & Ht). specialize (IH w).
    destruct (turn w) as [w' t']. cbn in *. eauto.
Qed.

Lemma choose_log w : log (snd (choose w)) = log w.
Proof. unfold choose. destruct (sched w); reflexivity. Qed.

Lemma Interleave_nil_r E (l : list E) : Interleave l [] l.
Proof. induction l; constructor; auto. Qed.

Lemma Interleave_nil_l E (l : list E) : Interleave [] l l.
Proof. induction l; constructor; auto. Qed.

Lemma Interleave_app_l E (l1 l2 l a : list E) :
  Interleave l1 l2 l -> Interleave (l1 ++ a) l2 (l ++ a).
Proof.
  induction 1; cbn; try (constructor; assumption).
  apply Interleave_nil_r.
Qed.

Lemma Interleave_app_r E (l1 l2 l a : list E) :
  Interleave l1 l2 l -> Interleave l1 (l2 ++ a) (l ++ a).
Proof.
  induction 1; cbn; try (constructor; assumption).
  apply Interleave_nil_l.
Qed.

Lemma Interleave_app E (l1 l2 : list E) : Interleave l1 l2 (l1 ++ l2).
Proof.
  induction l1; cbn; [apply Interleave_nil_l | constructor; assumption].
Qed.

Lemma Interleave_count p (l1 l2 l : list Event) :
  Interleave l1 l2 l -> count p l = count p l1 + count p l2.
Proof.
  unfold count. induction 1; cbn; try destruct (p x); cbn; lia.
Qed.

Lemma Interleave_In E (l1 l2 l : list E) x :
  Interleave l1 l2 l -> (In x l <-> In x l1 \/ In x l2).
Proof. induction 1; cbn; tauto. Qed.

Lemma Merge_concat E (ls : list (list E)) : Merge ls (List.concat ls).
Proof.
  induction ls; cbn; [constructor | econstructor; eauto using Interleave_app].
Qed.

Lemma count_app p l1 l2 : count p (l1 ++ l2) = count p l1 + count p l2.
Proof. unfold count. rewrite filter_app, length_app. reflexivity. Qed.

(** Two promises side by side: the pair's events are a shuffle of
    theirs. *)
Lemma par_traced A B (Q1 : A -> list Event -> Prop)
    (Q2 : B -> list Event -> Prop) :
  forall t1 t2 o1 o2 o,
    traced o1 Q1 t1 -> traced o2 Q2 t2 -> Interleave o1 o2 o ->
    traced o
      (fun p tr => exists tr1 tr2,
         Interleave tr1 tr2 tr /\ Q1 (fst p) tr1 /\ Q2 (snd p) tr2)
      (par t1 t2).
Proof.
  intro t1. induction t1 as [a | turn1 IH1] using Task_induction;
    intro t2; induction t2 as [b | turn2 IH2] using Task_induction;
    intros o1 o2 o H1 H2 Hi; cbn in H1, H2.
  - cbn. eauto.
  - cbn. intro w. destruct (H2 w) as (l & Hl & Ht). specialize (IH2 w).
    destruct (turn2 w) as [w' t2']. cbn in *. exists l. split; [assumption|].
    eapply IH2; eauto using Interleave_app_r.
  - cbn. intro w. destruct (H1 w) as (l & Hl & Ht). specialize (IH1 w).
    destruct (turn1 w) as [w' t1']. cbn in *. exists l. split; [assumption|].
    eapply IH1; eauto using Interleave_app_l.
  - cbn. intro w. pose proof (choose_log w) as Hc.
    destruct (choose w) as [[|] w0]; cbn in Hc.
    + destruct (H1 w0) as (l & Hl & Ht). specialize (IH1 w0).
      destruct (turn1 w0) as [w' t1']. cbn in *. exists l.
      split; [congruence|].
      eapply (IH1 (Await turn2)); eauto using Interleave_app_l.
    + destruct (H2 w0) as (l & Hl & Ht). specialize (IH2 w0).
      destruct (turn2 w0) as [w' t2']. cbn in *. exists l.
      split; [congruence|].
      eapply IH2; eauto using Interleave_app_r.
Qed.

Lemma all_traced A B (Q : A -> B -> list Event -> Prop) :
  forall xs ts os,
    Joined (fun x t o => traced o (Q x) t) xs ts os ->
    forall o, Merge os o ->
    traced o (fun rs tr => exists trs, Merge trs tr /\ Joined Q xs rs trs)
           (all ts).
Proof.
  induction 1 as [| x t o1 xs ts os Ht HJ IH]; intros o Hm.
  - inversion Hm; subst. cbn. exists []. split; constructor.
  - inversion Hm as [| ? ? o' ? Hm' Hi]; subst. cbn [all].
    apply traced_tmap.
    eapply traced_weaken; [| eapply par_traced; [exact Ht | exact (IH _ Hm') | exact Hi]].
    cbn. intros [r rs] tr (tr1 & tr2 & Hi' & HQ & trs & Hm2 & HJ2). cbn in *.
    exists (tr1 :: trs). split; econstructor; eauto.
Qed.

Lemma start_all_traced A B (f : A -> Async B)
    (P : A -> B -> list Event -> Prop) :
  forall xs, (forall x, In x xs -> wp (f x) [] (P x)) ->
  forall w, exists os,
    log (fst (start_all f xs w)) = log w ++ List.concat os /\
    Joined (fun x t o => traced o (P x) t) xs (snd (start_all f xs w)) os.
Proof.
  induction xs as [| x xs IH]; intros Hf w; cbn.
  - exists []. cbn. rewrite app_nil_r. split; constructor.
  - destruct (Hf x (or_introl eq_refl) w) as (l & Hl & Ht).
    destruct (f x w) as [w1 t]. cbn in *.
    destruct (IH (fun y Hy => Hf y (or_intror Hy)) w1) as (os & Hos & HJ).
    destruct (start_all f xs w1) as [w2 ts]. cbn in *.
    exists (l :: os). cbn. split.
    + rewrite Hos, Hl, app_assoc. reflexivity.
    + constructor; assumption.
Qed.

(** [Promise.all(xs.map(f))]: whatever the interleaving, each call keeps
    its own specification and the events of the whole are a merge of the
    events of the calls. *)
Lemma wp_promise_all_map A B (f : A -> Async B)
    (P : A -> B -> list Event -> Prop) xs own
    (Q : list B -> list Event -> Prop) :
  (forall x, In x xs -> wp (f x) [] (P x)) ->
  (forall rs trs tr, Joined P xs rs trs -> Merge trs tr -> Q rs (own ++ tr)) ->
  wp (promise_all_map f xs) own Q.
Proof.
  intros Hf HQ w. unfold promise_all_map.
  destruct (start_all_traced _ _ f P xs Hf w) as (os & Hos & HJ).
  destruct (start_all f xs w) as [w1 ts]. cbn in *.
  exists (List.concat os). split; [assumption|].
  pose proof (all_traced _ _ P _ _ _ HJ _ (Merge_concat _ os)) as Ha.
  apply (traced_frame _ _ own) in Ha.
  eapply traced_weaken; [| exact Ha].
  cbn. intros rs tr (tr' & -> & trs & Hm & HJ'). eauto.
Qed.

(** ** Running a call on its own

    With nothing running beside it, a call is plain state passing. *)

Lemma run_graft A B (k : A -> Async B) :
  forall t w,
    run (snd (graft t k w)) (fst (graft t k w)) =
    let (w', a) := run t w in exec (k a) w'.
Proof.
  intro t. induction t as [a | turn IH] using Task_induction; intro w; cbn.
  - unfold exec. destruct (k a w); reflexivity.
  - specialize (IH w). destruct (turn w) as [w' t']. cbn in IH.
    specialize (IH w'). destruct (graft t' k w') as [w3 t3]. exact IH.
Qed.

Lemma exec_bind A B (m : Async A) (k : A -> Async B) w :
  exec (bind m k) w = let (w1, a) := exec m w in exec (k a) w1.
Proof.
  unfold exec at 1 2, bind. destruct (m w) as [w1 t].
  pose proof (run_graft _ _ k t w1) as H.
  destruct (graft t k w1) as [w2 t2]. exact H.
Qed.

Lemma exec_await A B (m : Async A) (k : A -> Async B) w :
  exec (await m k) w = let (w1, a) := exec m w in exec (k a) w1.
Proof.
  unfold exec at 1 2, await. destruct (m w) as [w1 [a | turn]].
  - reflexivity.
  - pose proof (run_graft _ _ k (Await turn) w1) as H.
    destruct (graft (Await turn) k w1) as [w2 t2]. exact H.
Qed.

Lemma exec_ret A (a : A) w : exec (ret a) w = (w, a).
Proof. reflexivity. Qed.

Lemma exec_sync A (f : World -> World * A) w : exec (sync f) w = f w.
Proof. unfold exec, sync. destruct (f w); reflexivity. Qed.

Lemma exec_emit e w : exec (emit e) w = (record e w, tt).
Proof. reflexivity. Qed.

Lemma exec_external A (f : list Event -> A) ev w :
  exec (external f ev) w = (record (ev (f (log w))) w, f (log w)).
Proof. reflexivity. Qed.

Lemma exec_localRead A (a : A) w : exec (localRead a) w = (w, a).
Proof. reflexivity. Qed.

Lemma exec_when b m w :
  exec (when b m) w = if b then exec m w else (w, tt).
Proof. destruct b; reflexivity. Qed.

Lemma exec_settle c w :
  exec (settle c) w =
  match c with
  | ClosingTrue => (w, true)
  | ClosingThenable tab =>
      let closed := tabGroups_close host (log w) tab in
      (record (EvCloseResult tab closed)
         (if closed then set_tabs (removeTab tab (tabs w)) w else w),
       closed)
  end.
Proof. destruct c; reflexivity. Qed.

Lemma exec_closeFileIfOpen item w :
  exec (closeFileIfOpen item) w =
  match find (sameFileId (getUri U item (isItemInRecycleBin U item))) (tabs w) with
  | Some tab => (record (EvCloseRequest tab) w, ClosingThenable tab)
  | None => (w, ClosingTrue)
  end.
Proof.
  unfold closeFileIfOpen. rewrite exec_sync.
  destruct (find _ (tabs w)); reflexivity.
Qed.

Lemma exec_getDelegateFolder n w :
  exec (getDelegateFolder n) w = (w, model_getDelegateFolder model (log w) n).
Proof. reflexivity. Qed.

(** ** Rules for the provider's primitives *)

Lemma wp_closeFileIfOpen item own (Q : Closing -> list Event -> Prop) :
  Q ClosingTrue own ->
  (forall tab, Q (ClosingThenable tab) (own ++ [EvCloseRequest tab])) ->
  wp (closeFileIfOpen item) own Q.
Proof.
  intros H1 H2 w. unfold closeFileIfOpen, sync.
  destruct (find _ (tabs w)) as [tab |]; cbn.
  - exists [EvCloseRequest tab]. auto.
  - exists []. rewrite !app_nil_r. auto.
Qed.

Lemma wp_settle c own (Q : bool -> list Event -> Prop) :
  match c with
  | ClosingTrue => Q true own
  | ClosingThenable tab => forall b, Q b (own ++ [EvCloseResult tab b])
  end ->
  wp (settle c) own Q.
Proof.
  destruct c as [| tab]; intros H.
  - apply wp_localRead; assumption.
  - intro w. exists []. cbn. rewrite !app_nil_r. split; [reflexivity|].
    intro w'. exists [EvCloseResult tab (tabGroups_close host (log w') tab)].
    cbn. split; [| apply H].
    destruct (tabGroups_close host (log w') tab); reflexivity.
Qed.

Lemma wp_getDelegateFolder n own (Q : option ContentItem -> list Event -> Prop) :
  (forall r, Q r own) -> wp (getDelegateFolder n) own Q.
Proof. intro H. apply wp_sync_silent; cbn; auto. Qed.

Lemma wp_new_cell b own (Q : nat -> list Event -> Prop) :
  (forall i, Q i own) -> wp (new_cell b) own Q.
Proof. intro H. apply wp_sync_silent; cbn; auto. Qed.

Lemma wp_write_cell i b own (Q : unit -> list Event -> Prop) :
  Q tt own -> wp (write_cell i b) own Q.
Proof. intro H. apply wp_sync_silent; cbn; auto. Qed.

Lemma wp_read_cell i own (Q : bool -> list Event -> Prop) :
  (forall b, Q b own) -> wp (read_cell i) own Q.
Proof. intro H. apply wp_sync_silent; cbn; auto. Qed.

Ltac wp_step :=
  lazymatch goal with
  | |- wp (bind _ _) _ _ => apply wp_bind
  | |- wp (await _ _) _ _ => apply wp_await
  | |- wp (ret _) _ _ => apply wp_ret
  | |- wp (emit _) _ _ => apply wp_emit
  | |- wp refresh _ _ => apply wp_emit
  | |- wp (when _ _) _ _ =>
      apply wp_when;
      (let H := fresh "Hwhen" in intro H; cbn in H; try discriminate H)
  | |- wp (external _ _) _ _ => apply wp_external; intro
  | |- wp (moveTo _ _) _ _ => apply wp_external; intro
  | |- wp (getChildren _) _ _ => apply wp_external; intro
  | |- wp (readFile _) _ _ => apply wp_external; intro
  | |- wp (localRead _) _ _ => apply wp_localRead
  | |- wp (closeFileIfOpen _) _ _ => apply wp_closeFileIfOpen; [| intro]
  | |- wp (settle ClosingTrue) _ _ => apply wp_settle
  | |- wp (settle (ClosingThenable _)) _ _ => apply wp_settle; intro
  | |- wp (getDelegateFolder _) _ _ => apply wp_getDelegateFolder; intro
  | |- wp (new_cell _) _ _ => apply wp_new_cell; intro
  | |- wp (write_cell _ _) _ _ => apply wp_write_cell
  | |- wp (read_cell _) _ _ => apply wp_read_cell; intro
  | |- wp (match ?x with _ => _ end) _ _ => destruct x eqn:?
  | |- wp (if ?x then _ else _) _ _ => destruct x eqn:?
  end.

Ltac wp_run := repeat (wp_step; cbn [negb isThenable]).

Lemma wp_deleteResource_any item own :
  wp (deleteResource item) own (fun _ _ => True).
Proof. unfold deleteResource. wp_run; auto. Qed.

Lemma Joined_length A B E (Q : A -> B -> list E -> Prop) xs rs trs :
  Joined Q xs rs trs ->
  List.length rs = List.length xs /\ List.length trs = List.length xs.
Proof. induction 1; cbn; intuition congruence. Qed.

(** Whatever the children and however their deletions end,
    [emptyRecycleBin] answers [true]: [Promise.all] returns one result
    per promise, so the two lengths it compares are always equal. *)
Lemma emptyRecycleBin_always_true w :
  snd (exec emptyRecycleBin w) = true.
Proof.
  assert (H : wp emptyRecycleBin [] (fun r _ => r = true)).
  { unfold emptyRecycleBin. wp_step. wp_step. wp_step. wp_step. wp_step.
    eapply wp_promise_all_map with (P := fun _ _ _ => True).
    - intros. apply wp_deleteResource_any.
    - intros rs trs tr HJ _. apply Joined_length in HJ as [-> _].
      rewrite Nat.eqb_refl. wp_run; auto. }
  destruct (exec_wp _ _ _ w H) as (tr & _ & Hr). exact Hr.
Qed.

(** ** Drop precedence *)

Ltac unfold_ops :=
  unfold exec, handleContentItemDrop, recycleResource, restoreResource,
    renameResource, deleteResource, addToMyFavorites, removeFromMyFavorites,
    createFolder, createFile, closeFileIfOpen, getDelegateFolder, moveTo,
    refresh, emit, external, localRead, when, bind, await, sync, ret.

(** C3.  [handleContentItemDrop] applies its checks in a fixed order.
    An item flagged [isInRecycleBin] is rejected with
    [FileDragFromTrashError] whatever the target is, and nothing else
    happens; otherwise a reference is rejected with
    [FileDragFromFavorites]; otherwise a trash-folder target runs
    [recycleResource]; otherwise a favorites-folder target runs
    [addToMyFavorites]; otherwise the item is moved to the target's
    resource id (and when the target has none, nothing is moved and the
    drop is reported as failed). *)
Theorem handleContentItemDrop_precedence target item w :
  let run := exec (handleContentItemDrop target item) w in
  let failed := fun w' => record (EvShowError FileDropError (Some (name item))) w' in
  (isInRecycleBin item = true ->
   run = (record (EvShowError FileDragFromTrashError (Some (name item))) w, tt))
  /\
  (isInRecycleBin item = false -> isReference U item = true ->
   run = (record (EvShowError FileDragFromFavorites (Some (name item))) w, tt))
  /\
  (isInRecycleBin item = false -> isReference U item = false ->
   type target = TRASH_FOLDER_TYPE U ->
   run = let (w1, success) := exec (recycleResource item) w in
         (if success then w1 else failed w1, tt))
  /\
  (isInRecycleBin item = false -> isReference U item = false ->
   type target <> TRASH_FOLDER_TYPE U ->
   type target = FAVORITES_FOLDER_TYPE U ->
   run = let (w1, success) := exec (addToMyFavorites item) w in
         (if success then w1 else failed w1, tt))
  /\
  (isInRecycleBin item = false -> isReference U item = false ->
   type target <> TRASH_FOLDER_TYPE U ->
   type target <> FAVORITES_FOLDER_TYPE U ->
   match truthy (getResourceIdFromItem U target) with
   | Some targetUri =>
       let ok := model_moveTo model (log w) item targetUri in
       let w1 := record (EvMoveTo item targetUri ok) w in
       run = (if ok then record EvRefresh w1 else failed w1, tt)
   | None => run = (failed w, tt)
   end).
Proof.
  cbn zeta. unfold handleContentItemDrop. repeat split.
  - intros H. rewrite H. reflexivity.
  - intros H1 H2. rewrite H1, H2. reflexivity.
  - intros H1 H2 Ht. rewrite H1, H2.
    apply String.eqb_eq in Ht. rewrite Ht.
    rewrite exec_await. destruct (exec (recycleResource item) w) as [w1 [|]];
      reflexivity.
  - intros H1 H2 Ht Hf. rewrite H1, H2.
    apply String.eqb_neq in Ht. apply String.eqb_eq in Hf. rewrite Ht, Hf.
    rewrite exec_await. destruct (exec (addToMyFavorites item) w) as [w1 [|]];
      reflexivity.
  - intros H1 H2 Ht Hf. rewrite H1, H2.
    apply String.eqb_neq in Ht. apply String.eqb_neq in Hf. rewrite Ht, Hf.
    destruct (truthy (getResourceIdFromItem U target)) as [targetUri |].
    + unfold_ops. cbn.
      destruct (model_moveTo model (log w) item targetUri); reflexivity.
    + reflexivity.
Qed.

(** ** Closing the editor before a mutation *)

Lemma sameFileId_spec fileUri tab :
  sameFileId fileUri tab = true <->
  exists u, showsDocument tab u /\ query u = query fileUri.
Proof.
  unfold sameFileId, showsDocument. destruct (input tab) as [u | u |].
  - rewrite String.eqb_eq. split.
    + intros H. exists u. auto.
    + intros (u' & [H | H] & Hq); [injection H as -> | discriminate]. assumption.
  - rewrite String.eqb_eq. split.
    + intros H. exists u. auto.
    + intros (u' & [H | H] & Hq); [discriminate | injection H as ->]. assumption.
  - split; [discriminate|]. intros (u' & [H | H] & _); discriminate.
Qed.

Lemma openTab_Some item ts :
  (exists tab, In tab ts /\
     showsDocument tab (getUri U item (isItemInRecycleBin U item))) ->
  exists tab, openTab item ts = Some tab.
Proof.
  intros (tab & Hin & Hs). unfold openTab.
  destruct (find _ ts) as [t |] eqn:Hf; [eauto|].
  exfalso. apply (find_none _ _ Hf) in Hin.
  assert (sameFileId (getUri U item (isItemInRecycleBin U item)) tab = true)
    by (apply sameFileId_spec; eauto).
  congruence.
Qed.

Lemma find_split A (f : A -> bool) l x :
  find f l = Some x ->
  exists before after,
    l = before ++ x :: after /\ f x = true /\
    forall y, In y before -> f y = false.
Proof.
  induction l as [| y l IH]; cbn; [discriminate |].
  destruct (f y) eqn:Hy.
  - intros H. injection H as <-. exists [], l. repeat split; auto.
    intros z [].
  - intros H. destruct (IH H) as (before & after & -> & Hx & Hb).
    exists (y :: before), after. repeat split; auto.
    intros z [<- | Hz]; auto.
Qed.

(** C4.  [renameResource] finds the open document by the file id, the
    query of the item's locator.  When some text or notebook tab
    carries that file id, the close of the first such tab is requested
    and settled before the model is asked to rename.  When the user
    declines, [renameResource] returns nothing, the model is never
    called and every tab is as it was.  When the close goes through,
    that tab alone is gone, the model is asked, and on success the
    document is opened at the new item's locator.  When no tab carries
    the file id, the only event is the rename and nothing is opened. *)
Theorem renameResource_open_editor item newName w :
  let fileUri := getUri U item (isItemInRecycleBin U item) in
  let hasFileId := fun tab =>
    exists u, showsDocument tab u /\ query u = query fileUri in
  let run := exec (renameResource item newName) w in
  ((exists tab, In tab (tabs w) /\ hasFileId tab) ->
   exists before tab after,
     tabs w = before ++ tab :: after /\
     hasFileId tab /\
     (forall t, In t before -> ~ hasFileId t) /\
     let w1 := record (EvCloseRequest tab) w in
     let w2 := record (EvCloseResult tab true)
                 (set_tabs (removeTab tab (tabs w)) w1) in
     let renamed := model_renameResource model (log w2) item newName in
     (tabGroups_close host (log w1) tab = false ->
      run = (record (EvCloseResult tab false) w1, None) /\
      tabs (fst run) = tabs w /\
      log (fst run) = log w ++ [EvCloseRequest tab; EvCloseResult tab false])
     /\
     (tabGroups_close host (log w1) tab = true ->
      log (fst run) =
        log w ++ [EvCloseRequest tab; EvCloseResult tab true;
                  EvRename item newName renamed] ++
        match renamed with
        | Some newItem => [EvOpen (getUri U newItem false)]
        | None => []
        end /\
      tabs (fst run) = removeTab tab (tabs w) /\
      snd run = option_map (fun newItem => getUri U newItem false) renamed))
  /\
  ((forall tab, In tab (tabs w) -> ~ hasFileId tab) ->
   let renamed := model_renameResource model (log w) item newName in
   run = (record (EvRename item newName renamed) w,
          option_map (fun newItem => getUri U newItem false) renamed)).
Proof.
  cbn zeta. split.
  - intros (t0 & Hin & Hm).
    destruct (find (sameFileId (getUri U item (isItemInRecycleBin U item)))
                (tabs w)) as [tab |] eqn:Hf.
    + destruct (find_split _ _ _ _ Hf) as (before & after & Htabs & Htab & Hb).
      exists before, tab, after.
      split; [exact Htabs |]. split; [apply sameFileId_spec; exact Htab |].
      split.
      { intros t Ht Hmt. apply sameFileId_spec in Hmt.
        rewrite (Hb t Ht) in Hmt. discriminate Hmt. }
      unfold_ops. rewrite Hf. cbn. split.
      * intros Hc. rewrite Hc. cbn. rewrite <- app_assoc. auto.
      * intros Hc. rewrite Hc. cbn.
        destruct (model_renameResource model _ item newName); cbn;
          rewrite <- !app_assoc; auto.
    + exfalso. apply (find_none _ _ Hf) in Hin.
      apply sameFileId_spec in Hm. congruence.
  - intros Hnone.
    assert (Hf : find (sameFileId (getUri U item (isItemInRecycleBin U item)))
                   (tabs w) = None).
    { destruct (find _ (tabs w)) as [t |] eqn:Hf; [| reflexivity].
      apply find_some in Hf as [Hin Hs]. apply sameFileId_spec in Hs.
      exfalso. exact (Hnone t Hin Hs). }
    unfold_ops. rewrite Hf. cbn.
    destruct (model_renameResource model (log w) item newName); reflexivity.
Qed.

(** C9.  [closeFileIfOpen] looks for the item's document by the query
    of its uri alone: a text or notebook tab matches as soon as the
    query of its uri equals the query of the item's uri, whatever the
    rest of the two uris; the item's uri is taken read-only exactly when
    the item is in the recycle bin.  When no tab matches it returns the
    literal [true] and asks for no close, and rename, delete, recycle
    and restore go straight to the model. *)
Theorem closeFileIfOpen_compares_file_id item w :
  let fileUri := getUri U item (isItemInRecycleBin U item) in
  let matches := fun tab =>
    exists u, showsDocument tab u /\ query u = query fileUri in
  (fileUri = if isItemInRecycleBin U item
             then getUri U item true else getUri U item false)
  /\
  ((exists tab, In tab (tabs w) /\ matches tab) ->
   exists tab, In tab (tabs w) /\ matches tab /\
     exec (closeFileIfOpen item) w =
       (record (EvCloseRequest tab) w, ClosingThenable tab))
  /\
  ((forall tab, In tab (tabs w) -> ~ matches tab) ->
   exec (closeFileIfOpen item) w = (w, ClosingTrue) /\
   (forall newName,
      let renamed := model_renameResource model (log w) item newName in
      exec (renameResource item newName) w =
        (record (EvRename item newName renamed) w,
         option_map (fun newItem => getUri U newItem false) renamed)) /\
   (let ok := model_delete model (log w) item in
    let w1 := record (EvDelete item ok) w in
    exec (deleteResource item) w = (if ok then record EvRefresh w1 else w1, ok)) /\
   (forall bin target,
      model_getDelegateFolder model (log w) "@myRecycleBin" = Some bin ->
      truthy (linkUri (links bin) "self") = Some target ->
      let ok := model_moveTo model (log w) item target in
      let w1 := record (EvMoveTo item target ok) w in
      exec (recycleResource item) w =
        (if ok then record (EvDidChange (getUri U item true)) (record EvRefresh w1)
         else w1, ok)) /\
   (forall target,
      truthy (linkUri (links item) "previousParent") = Some target ->
      let ok := model_moveTo model (log w) item target in
      let w1 := record (EvMoveTo item target ok) w in
      exec (restoreResource item) w = (if ok then record EvRefresh w1 else w1, ok))).
Proof.
  cbn zeta. split; [| split].
  - destruct (isItemInRecycleBin U item); reflexivity.
  - intros (tab & Hin & Hm).
    rewrite exec_closeFileIfOpen.
    destruct (find _ (tabs w)) as [t |] eqn:Hf.
    + apply find_some in Hf as [Hin' Hs]. apply sameFileId_spec in Hs. eauto.
    + apply (find_none _ _ Hf) in Hin. apply sameFileId_spec in Hm. congruence.
  - intros Hnone.
    assert (Hf : find (sameFileId (getUri U item (isItemInRecycleBin U item)))
                   (tabs w) = None).
    { destruct (find _ (tabs w)) as [t |] eqn:Hf; [| reflexivity].
      apply find_some in Hf as [Hin Hs]. apply sameFileId_spec in Hs.
      exfalso. exact (Hnone t Hin Hs). }
    repeat split.
    + rewrite exec_closeFileIfOpen, Hf. reflexivity.
    + intro newName. unfold_ops. rewrite Hf. cbn.
      destruct (model_renameResource model (log w) item newName); reflexivity.
    + unfold_ops. rewrite Hf. cbn.
      destruct (model_delete model (log w) item); reflexivity.
    + intros bin target Hbin Hself. unfold_ops. cbn. rewrite Hbin, Hself.
      rewrite Hf. cbn.
      destruct (model_moveTo model (log w) item target); reflexivity.
    + intros target Hprev. unfold_ops. rewrite Hprev. cbn. rewrite Hf. cbn.
      destruct (model_moveTo model (log w) item target); reflexivity.
Qed.

(** ** Recycling *)

Lemma await_ret_exec A (m : Async A) w :
  exec (await m (fun r => ret r)) w = exec m w.
Proof.
  rewrite exec_await. destruct (exec m w) as [w1 a]. reflexivity.
Qed.

(** C8.  [recycleResource] asks the model for the recycle bin.  Without
    one it behaves exactly as [deleteResource].  With a bin whose self
    link gives no address it returns [false] and leaves the world
    untouched (no close request, no move).  With an address, a
    successful run ends with the move to that address, the tree refresh
    and a document-changed event for the item's read-only locator; a
    failed run emits neither notification. *)
Theorem recycleResource_behaviour item w :
  let run := exec (recycleResource item) w in
  (model_getDelegateFolder model (log w) "@myRecycleBin" = None ->
   run = exec (deleteResource item) w)
  /\
  (forall bin,
     model_getDelegateFolder model (log w) "@myRecycleBin" = Some bin ->
     truthy (linkUri (links bin) "self") = None ->
     run = (w, false))
  /\
  (forall bin target,
     model_getDelegateFolder model (log w) "@myRecycleBin" = Some bin ->
     truthy (linkUri (links bin) "self") = Some target ->
     exists tr, log (fst run) = log w ++ tr /\
       (snd run = true ->
        exists closing,
          tr = closing ++ [EvMoveTo item target true; EvRefresh;
                           EvDidChange (getUri U item true)] /\
          forall e, In e closing ->
            exists tab closed, e = EvCloseRequest tab \/ e = EvCloseResult tab closed) /\
       (snd run = false ->
        ~ In EvRefresh tr /\ (forall u, ~ In (EvDidChange u) tr) /\
        (forall dest, ~ In (EvMoveTo item dest true) tr))).
Proof.
  cbn zeta. split; [| split].
  - intros Hbin. unfold recycleResource. rewrite exec_bind.
    rewrite exec_getDelegateFolder, Hbin. apply await_ret_exec.
  - intros bin Hbin Hself. unfold recycleResource. rewrite exec_bind.
    rewrite exec_getDelegateFolder, Hbin, Hself. reflexivity.
  - intros bin target Hbin Hself. unfold_ops. cbn. rewrite Hbin, Hself.
    destruct (find _ (tabs w)) as [tab |]; cbn.
    + destruct (tabGroups_close host _ tab); cbn.
      * destruct (model_moveTo model _ item target); cbn;
          rewrite <- !app_assoc; cbn; eexists; (split; [reflexivity|]); split;
          try discriminate; intros _.
        -- exists [EvCloseRequest tab; EvCloseResult tab true].
           split; [reflexivity|].
           intros e [<- | [<- | []]]; exists tab, true; auto.
        -- cbn. intuition discriminate.
      * rewrite <- !app_assoc; cbn; eexists; (split; [reflexivity|]); split;
          try discriminate; intros _. cbn. intuition discriminate.
    + destruct (model_moveTo model _ item target); cbn;
        rewrite <- ?app_assoc; cbn; eexists; (split; [reflexivity|]); split;
        try discriminate; intros _.
      * exists []. split; [reflexivity|]. intros e [].
      * cbn. intuition discriminate.
Qed.

(** ** Tree refresh after a mutation *)

Ltac case_oracles :=
  repeat (match goal with
  | |- context [find ?f (tabs ?w)] => destruct (find f (tabs w)) eqn:?
  | |- context [tabGroups_close host ?l ?t] =>
      destruct (tabGroups_close host l t) eqn:?
  | |- context [model_createFolder model ?l ?a ?b] =>
      destruct (model_createFolder model l a b) eqn:?
  | |- context [model_createFile model ?l ?a ?b ?c] =>
      destruct (model_createFile model l a b c) eqn:?
  | |- context [model_renameResource model ?l ?a ?b] =>
      destruct (model_renameResource model l a b) eqn:?
  | |- context [model_delete model ?l ?a] =>
      destruct (model_delete model l a) eqn:?
  | |- context [model_moveTo model ?l ?a ?b] =>
      destruct (model_moveTo model l a b) eqn:?
  | |- context [model_addFavorite model ?l ?a] =>
      destruct (model_addFavorite model l a) eqn:?
  | |- context [model_removeFavorite model ?l ?a] =>
      destruct (model_removeFavorite model l a) eqn:?
  | |- context [model_getDelegateFolder model ?l ?a] =>
      destruct (model_getDelegateFolder model l a) eqn:?
  | |- context [truthy ?x] => destruct (truthy x) eqn:?
  end; cbn).

Ltac show_trace :=
  unfold appends; unfold_ops; cbn; case_oracles;
  rewrite <- ?app_assoc; cbn;
  first [ eexists; split; [reflexivity |]
        | exists []; split; [symmetry; apply app_nil_r |] ]; cbn.

Ltac decide_events :=
  solve [ intuition (try discriminate; eauto)
        | split; intros H;
          repeat match goal with
                 | H : _ \/ _ |- _ => destruct H as [H | H]
                 | H : exists _, _ |- _ => destruct H as (? & H)
                 | H : False |- _ => destruct H
                 end;
          try discriminate; eauto 7 ].

Ltac case_exchange item w :=
  let Hopen := fresh "Hopen" in
  let Hclose := fresh "Hclose" in
  unfold appends, closeExchange; cbn zeta;
  destruct (openTab item (tabs w)) as [?tab |] eqn:Hopen;
  unfold openTab in Hopen; cbn [fst snd];
  [ try match goal with
        | |- context [tabGroups_close host ?l ?t] =>
            destruct (tabGroups_close host l t) eqn:Hclose
        end
  | ];
  unfold_ops; cbn;
  repeat first
    [ rewrite Hopen
    | rewrite Hclose
    | match goal with
      | |- context [model_getDelegateFolder model ?l ?a] =>
          destruct (model_getDelegateFolder model l a) eqn:?
      | |- context [truthy ?x] => destruct (truthy x) eqn:?
      end
    | progress cbn ];
  rewrite <- ?app_assoc; cbn [app]; rewrite ?app_nil_r.

(** C10.  Each mutation fires the tree-changed notification exactly
    when its model operation succeeded.  What each of them appends to
    the log is: the close exchange, if a tab carries the item's file
    id; then, unless the close was declined, the model call with the
    answer the model gave at that point; then, only when that answer is
    a success, one [EvRefresh] (followed, for a recycle, by the
    document-changed event).  [recycleResource] without a recycle bin
    does what [deleteResource] does, and without a usable link neither
    it nor [restoreResource] calls the model or refreshes.
    [renameResource] appends its model call and, on success with a tab
    closed, the re-opening — never a refresh. *)
Theorem refresh_iff_model_success item w :
  let pre := fst (closeExchange item w) in
  let closed := snd (closeExchange item w) in
  let refreshed := fun (ok : bool) => if ok then [EvRefresh] else [] in
  let answered := fun (created : option ContentItem) =>
    match created with Some _ => true | None => false end in
  let deleted :=
    let ok := model_delete model (log w ++ pre) item in
    pre ++ if closed then EvDelete item ok :: refreshed ok else [] in
  (forall folderName,
     let created := model_createFolder model (log w) item folderName in
     appends (createFolder item folderName) w
       (EvCreateFolder item folderName created ::
        refreshed (answered created)))
  /\
  (forall fileName buffer,
     let created := model_createFile model (log w) item fileName buffer in
     appends (createFile item fileName buffer) w
       (EvCreateFile item fileName buffer created ::
        refreshed (answered created)))
  /\
  appends (deleteResource item) w deleted
  /\
  appends (recycleResource item) w
    match model_getDelegateFolder model (log w) "@myRecycleBin" with
    | None => deleted
    | Some bin =>
        match truthy (linkUri (links bin) "self") with
        | None => []
        | Some target =>
            let ok := model_moveTo model (log w ++ pre) item target in
            pre ++ if closed
                   then EvMoveTo item target ok ::
                        if ok then [EvRefresh; EvDidChange (getUri U item true)]
                        else []
                   else []
        end
    end
  /\
  appends (restoreResource item) w
    match truthy (linkUri (links item) "previousParent") with
    | None => []
    | Some target =>
        let ok := model_moveTo model (log w ++ pre) item target in
        pre ++ if closed then EvMoveTo item target ok :: refreshed ok else []
    end
  /\
  (let ok := model_addFavorite model (log w) item in
   appends (addToMyFavorites item) w (EvAddFavorite item ok :: refreshed ok))
  /\
  (let ok := model_removeFavorite model (log w) item in
   appends (removeFromMyFavorites item) w
     (EvRemoveFavorite item ok :: refreshed ok))
  /\
  (forall newName,
     let renamed := model_renameResource model (log w ++ pre) item newName in
     appends (renameResource item newName) w
       (pre ++ if closed
               then EvRename item newName renamed ::
                    match renamed, openTab item (tabs w) with
                    | Some newItem, Some _ => [EvOpen (getUri U newItem false)]
                    | _, _ => []
                    end
               else [])).
Proof.
  cbn zeta. repeat split; intros.
  all: case_exchange item w.
  all: case_oracles.
  all: rewrite <- ?app_assoc; cbn [app]; rewrite ?app_nil_r.
  all: reflexivity.
Qed.

(** ** Export *)









(** ** Dropping content items *)

Ltac close_trace :=
  rewrite <- ?app_assoc;
  first [ eexists; split; [reflexivity |]
        | exists []; split; [symmetry; apply app_nil_r |] ];
  cbn.

Lemma wp_deleteResource item own :
  wp (deleteResource item) own
     (fun ok tr => exists d, tr = own ++ d /\ Mutation ok d).
Proof.
  unfold deleteResource, Mutation. wp_run; subst; close_trace; auto.
Qed.

Lemma wp_recycleResource item own :
  wp (recycleResource item) own
     (fun ok tr => exists d, tr = own ++ d /\ Mutation ok d).
Proof.
  unfold recycleResource. wp_step. wp_step. wp_step.
  - unfold Mutation. wp_run; subst; close_trace; auto.
  - wp_step. eapply wp_weaken; [| apply wp_deleteResource].
    cbn beta. intros ok tr H. wp_step. exact H.
Qed.

Lemma wp_addToMyFavorites item own :
  wp (addToMyFavorites item) own
     (fun ok tr => exists d, tr = own ++ d /\ Mutation ok d).
Proof.
  unfold addToMyFavorites, Mutation. wp_run; subst; close_trace; auto.
Qed.

Lemma wp_handleContentItemDrop target item :
  wp (handleContentItemDrop target item) [] (fun _ tr => ItemOutcome tr).
Proof.
  unfold handleContentItemDrop, ItemOutcome. cbn zeta.
  destruct (isInRecycleBin item); cbn beta iota; [wp_run; cbn; auto |].
  destruct (isReference U item); cbn beta iota; [wp_run; cbn; auto |].
  destruct (String.eqb (type target) (TRASH_FOLDER_TYPE U)); cbn beta iota.
  { wp_step. eapply wp_weaken; [| apply wp_recycleResource].
    cbn beta. intros ok tr (d & -> & Hs & Hr & He).
    destruct ok; wp_run; try discriminate; cbn [app];
      rewrite ?count_app; cbn; rewrite ?Hs, ?Hr, ?He; auto. }
  destruct (String.eqb (type target) (FAVORITES_FOLDER_TYPE U));
    cbn beta iota.
  { wp_step. eapply wp_weaken; [| apply wp_addToMyFavorites].
    cbn beta. intros ok tr (d & -> & Hs & Hr & He).
    destruct ok; wp_run; try discriminate; cbn [app];
      rewrite ?count_app; cbn; rewrite ?Hs, ?Hr, ?He; auto. }
  wp_run; subst; try discriminate; cbn; auto.
Qed.

Lemma Merge_count p (trs : list (list Event)) tr :
  Merge trs tr -> count p tr = list_sum (map (count p) trs).
Proof.
  induction 1 as [| t ts tr' tr Hm IH Hi]; cbn; [reflexivity|].
  rewrite (Interleave_count p _ _ _ Hi), IH. reflexivity.
Qed.

Lemma Joined_Forall A B E (P : A -> B -> list E -> Prop) (R : list E -> Prop)
    xs rs trs :
  (forall x r tr, P x r tr -> R tr) -> Joined P xs rs trs -> Forall R trs.
Proof. intros HP. induction 1; constructor; eauto. Qed.

Lemma ItemOutcome_sum trs :
  Forall ItemOutcome trs ->
  list_sum (map (count isRefresh) trs) +
  list_sum (map (count isShowError) trs) = List.length trs /\
  list_sum (map (count isRefresh) trs) =
  list_sum (map (count isMutationSuccess) trs).
Proof.
  induction 1 as [| t ts Ht _ IH]; [cbn; auto |].
  change (map ?f (t :: ts)) with (f t :: map f ts).
  change (list_sum (?x :: ?l)) with (x + list_sum l).
  change (List.length (t :: ts)) with (S (List.length ts)).
  destruct IH as [IH1 IH2].
  destruct Ht as [(Hs & Hr & He) | (Hs & Hr & He)]; lia.
Qed.


(** ** Import *)

Lemma FsEntry_induction (P : FsEntry -> Prop) :
  (forall fname content, P (FsFile fname content)) ->
  (forall dname entries, Forall P entries -> P (FsDir dname entries)) ->
  forall e, P e.
Proof.
  intros HF HD. fix IH 1. intros [fname content | dname entries].
  - apply HF.
  - apply HD. induction entries as [| e es IHes]; constructor.
    + apply IH.
    + exact IHes.
Qed.

Lemma Merge_In E (trs : list (list E)) tr t x :
  Merge trs tr -> In t trs -> In x t -> In x tr.
Proof.
  induction 1 as [| t0 ts tr' tr Hm IH Hi]; intros Ht Hx; [destruct Ht|].
  apply (Interleave_In _ _ _ _ x Hi).
  destruct Ht as [-> | Ht]; auto.
Qed.

Lemma Joined_In A B E (P : A -> B -> list E -> Prop) xs rs trs x :
  Joined P xs rs trs -> In x xs -> exists r t, In t trs /\ P x r t.
Proof.
  induction 1 as [| x0 r t xs rs trs HP HJ IH]; intros Hx; [destruct Hx|].
  destruct Hx as [-> | Hx].
  - exists r, t. cbn. auto.
  - destruct (IH Hx) as (r' & t' & Hin & HP'). exists r', t'. cbn. auto.
Qed.

Lemma Joined_count_zero A B (P : A -> B -> list Event -> Prop) p xs rs trs tr :
  (forall x r t, P x r t -> count p t = 0) ->
  Joined P xs rs trs -> Merge trs tr -> count p tr = 0.
Proof.
  intros HP HJ Hm. rewrite (Merge_count p _ _ Hm). clear Hm.
  induction HJ as [| x r t xs rs trs Hx HJ IH]; cbn; [reflexivity|].
  rewrite (HP _ _ _ Hx). exact IH.
Qed.

(** The part of [handleFolderDrop] that follows the creation of the
    folder. *)
Lemma wp_handleFolderDropWith callback target dname entries display own :
  (forall e, In e entries ->
     forall folder cell,
       wp (callback folder cell display e) []
          (fun _ tr => EntryImported folder e tr)) ->
  wp (handleFolderDropWith callback target dname entries display) own
     (fun ok tr => exists created rest,
        tr = own ++ EvCreateFolder target dname created :: rest /\
        FolderImported dname entries display created ok rest).
Proof.
  intros Hcb. unfold handleFolderDropWith, FolderImported.
  wp_step. apply wp_external. intros created.
  wp_step. apply wp_new_cell. intros cell.
  destruct created as [folder |].
  - wp_step. wp_step. wp_step.
    eapply wp_promise_all_map
      with (P := fun e (_ : unit) tr => EntryImported folder e tr).
    + intros e He. apply Hcb. assumption.
    + intros rs trs tr HJ Hm. apply wp_read_cell. intros ok.
      exists (Some folder), tr. rewrite <- app_assoc. cbn.
      split; [reflexivity|]. split.
      * eapply Joined_count_zero; [| exact HJ | exact Hm].
        intros x r t [_ H]. exact H.
      * intros e He. destruct (Joined_In _ _ _ _ _ _ _ e HJ He)
          as (r & t & Ht & [Hex _]).
        apply Exists_exists in Hex as (ev & Hev & Hc).
        apply Exists_exists. exists ev. split; [| assumption].
        eapply Merge_In; eauto.
  - wp_run.
    + exists None, [EvShowError FileDropError (Some dname)].
      rewrite <- app_assoc. subst. cbn. auto.
    + exists None, []. subst. cbn. auto.
Qed.

Lemma wp_folderDropEntry e :
  forall folder cell display own,
    wp (folderDropEntry folder cell display e) own
       (fun _ tr => exists d, tr = own ++ d /\ EntryImported folder e d).
Proof.
  induction e as [fname content | dname entries IH] using FsEntry_induction;
    intros folder cell display own; cbn [folderDropEntry].
  - unfold createFile, EntryImported.
    wp_run; subst; close_trace; (split; [| reflexivity]);
      apply Exists_cons_hd; cbn; eauto.
  - wp_step. wp_step. wp_step.
    eapply wp_weaken; [| apply wp_handleFolderDropWith].
    + cbn beta. intros ok tr (created & rest & -> & Hup & _).
      wp_step. exists (EvCreateFolder folder dname created :: rest).
      split; [reflexivity|]. split.
      * apply Exists_cons_hd. cbn. eauto.
      * exact Hup.
    + intros e He folder' cell'. rewrite Forall_forall in IH.
      eapply wp_weaken; [| apply (IH e He)].
      cbn beta. intros _ tr (d & -> & Hd). exact Hd.
Qed.

Lemma wp_handleFolderDrop target dname entries display own :
  wp (handleFolderDrop target dname entries display) own
     (fun ok tr => exists created rest,
        tr = own ++ EvCreateFolder target dname created :: rest /\
        FolderImported dname entries display created ok rest).
Proof.
  apply wp_handleFolderDropWith. intros e _ folder cell.
  eapply wp_weaken; [| apply wp_folderDropEntry].
  cbn beta. intros _ tr (d & -> & Hd). exact Hd.
Qed.

Lemma count_cons p e l :
  count p (e :: l) = (if p e then 1 else 0) + count p l.
Proof. unfold count. cbn. destruct (p e); reflexivity. Qed.

Lemma wp_uploadLoop target :
  forall uris acc own,
    wp (uploadLoop uris target acc) own
       (fun failed tr => exists d sub,
          tr = own ++ d /\ count isUploadError d = 0 /\
          failed = acc ++ sub /\ incl sub (map basename uris)).
Proof.
  induction uris as [| u rest IH]; intros acc own.
  - cbn. apply wp_ret. exists [], []. rewrite !app_nil_r.
    repeat split; auto. apply incl_nil_l.
  - cbn [uploadLoop]. destruct u as [fname content | dname entries].
    + unfold createFile. wp_step. wp_step. wp_step. wp_step.
      apply wp_external. intros created.
      destruct created as [newItem |]; wp_run;
        (eapply wp_weaken; [| apply IH]); cbn beta;
        intros failed tr (d & sub & -> & Hd & -> & Hsub);
        rewrite <- ?app_assoc; cbn [app].
      * eexists _, sub. split; [reflexivity|].
        rewrite !count_cons, Hd. cbn. repeat split; auto.
        apply incl_tl. assumption.
      * eexists _, (fname :: sub). split; [reflexivity|].
        rewrite !count_cons, Hd. cbn. repeat split; auto.
        apply incl_cons; [left; reflexivity | apply incl_tl; assumption].
    + wp_step. eapply wp_weaken; [| apply wp_handleFolderDrop].
      cbn beta. intros ok tr (created & r & -> & [Hup _]).
      eapply wp_weaken; [| apply IH]. cbn beta.
      intros failed tr (d & sub & -> & Hd & -> & Hsub).
      rewrite <- !app_assoc. cbn [app].
      destruct ok.
      * eexists _, sub. split; [reflexivity|].
        rewrite count_cons, count_app, Hd, Hup. cbn. repeat split; auto.
        apply incl_tl. assumption.
      * eexists _, (dname :: sub). split; [reflexivity|].
        rewrite count_cons, count_app, Hd, Hup. cbn.
        rewrite <- !app_assoc. repeat split; auto.
        apply incl_cons; [left; reflexivity | apply incl_tl; assumption].
Qed.

(** X17.  An import creates the remote folder before anything else.
    If that creation fails the import stops there: no entry of the
    directory is touched, the result is failure, and the only report is
    the message naming the folder — or, when messages are off as in a
    bulk upload, the one upload error of the caller.  If it succeeds,
    the creation of every entry of the directory is requested, whatever
    happens to the other entries and however the imports interleave. *)
Theorem handleFolderDrop_aborts_branch_only target dname entries w :
  let created := model_createFolder model (log w) target dname in
  (forall display,
     let run := exec (handleFolderDrop target dname entries display) w in
     exists rest,
       log (fst run) = log w ++ EvCreateFolder target dname created :: rest /\
       match created with
       | None =>
           snd run = false /\
           rest = if display
                  then [EvShowError FileDropError (Some dname)] else []
       | Some folder => forall e, In e entries -> Exists (creates folder e) rest
       end)
  /\
  (created = None ->
   snd (exec (uploadLoop [FsDir dname entries] target []) w) = [dname] /\
   appends (uploadUrisToTarget [FsDir dname entries] target) w
     [EvCreateFolder target dname None; EvShowError FileUploadError None]).
Proof.
  cbn zeta. split.
  - intros display. unfold handleFolderDrop, handleFolderDropWith.
    rewrite exec_await, exec_external.
    set (created := model_createFolder model (log w) target dname).
    set (w1 := record (EvCreateFolder target dname created) w).
    rewrite exec_bind. unfold new_cell. rewrite exec_sync. cbn beta iota zeta.
    destruct created as [folder |] eqn:Hc.
    + match goal with
      | |- context [exec ?m ?w2] =>
          assert (H : wp m [] (fun _ tr =>
                     forall e, In e entries -> Exists (creates folder e) tr));
          [| destruct (exec_wp _ _ _ w2 H) as (tr & Htr & Hall) ]
      end.
      * wp_step. wp_step. wp_step.
        eapply wp_promise_all_map
          with (P := fun e (_ : unit) tr => EntryImported folder e tr).
        -- intros e He. eapply wp_weaken; [| apply wp_folderDropEntry].
           cbn beta. intros _ tr (d & -> & Hd). exact Hd.
        -- intros rs trs tr HJ Hm. apply wp_read_cell. intros ok e He.
           destruct (Joined_In _ _ _ _ _ _ _ e HJ He) as (r & t & Ht & [Hex _]).
           apply Exists_exists in Hex as (ev & Hev & Hcr).
           apply Exists_exists. exists ev. split; [| assumption].
           cbn. eapply Merge_In; eauto.
      * exists tr. split; [| assumption].
        rewrite Htr. subst w1. cbn. rewrite <- app_assoc. reflexivity.
    + destruct display; cbn; rewrite <- ?app_assoc; eexists;
        (split; [reflexivity |]); auto.
  - intros Hnone. split.
    + cbn [uploadLoop]. rewrite exec_await.
      unfold handleFolderDrop, handleFolderDropWith.
      rewrite exec_await, exec_external, Hnone. reflexivity.
    + unfold appends, uploadUrisToTarget.
      rewrite exec_bind. cbn [uploadLoop]. rewrite exec_await.
      unfold handleFolderDrop, handleFolderDropWith.
      rewrite exec_await, exec_external, Hnone. cbn.
      rewrite <- app_assoc. reflexivity.
Qed.

(** ** Further properties of the mutations *)

Ltac quiet_trace := repeat (constructor; try reflexivity).

(** X1.  Rename, delete, recycle and restore share one discipline: at
    most one tab close is requested, for the tab [closeFileIfOpen]
    finds, and it is requested and answered before anything else
    happens; when the user declines, the operation reports failure, the
    model is not called and the tabs are as before. *)
Theorem mutations_close_editor_first item newName w :
  ClosesEditorFirst item (renameResource item newName) (fun r => r = None) w /\
  ClosesEditorFirst item (deleteResource item) (fun r => r = false) w /\
  ClosesEditorFirst item (recycleResource item) (fun r => r = false) w /\
  ClosesEditorFirst item (restoreResource item) (fun r => r = false) w.
Proof.
  unfold ClosesEditorFirst, openTab.
  repeat split.
  all: unfold appends; unfold_ops; cbn; case_oracles.
  all: rewrite <- ?app_assoc; cbn.
  all: first [ eexists; split; [reflexivity |]
             | exists []; split; [symmetry; apply app_nil_r |] ]; cbn.
  all: split; [| split].
  all: try solve [ left; quiet_trace
                 | right; do 3 eexists; split; [reflexivity |];
                   split; [quiet_trace | intro; first [discriminate | reflexivity]] ].
  all: try solve [ intros tab rest H;
                   first [discriminate H | injection H; intros; subst; congruence] ].
  all: try solve [ intros tab H;
                   repeat (destruct H as [H | H]; try discriminate H);
                   try contradiction; split; first [reflexivity | congruence] ].
Qed.

(** X2.  [restoreResource] needs the item's [previousParent] link: when
    the link is missing or its uri is empty, nothing at all happens and
    the answer is [false].  Otherwise the only place the item is ever
    moved to is that uri, a successful answer means the move was made,
    and — unlike recycling — no document-changed event is fired. *)
Theorem restoreResource_previousParent item w :
  let run := exec (restoreResource item) w in
  (truthy (linkUri (links item) "previousParent") = None -> run = (w, false))
  /\
  (forall target,
     truthy (linkUri (links item) "previousParent") = Some target ->
     exists tr,
       log (fst run) = log w ++ tr /\
       (forall moved dest ok,
          In (EvMoveTo moved dest ok) tr -> moved = item /\ dest = target) /\
       (snd run = true <-> In (EvMoveTo item target true) tr) /\
       (forall u, ~ In (EvDidChange u) tr)).
Proof.
  cbn zeta. split.
  - intros Hnone. unfold_ops. rewrite Hnone. reflexivity.
  - intros target Hsome. unfold_ops. rewrite Hsome. cbn. case_oracles.
    all: rewrite <- ?app_assoc; cbn.
    all: eexists; (split; [reflexivity |]); cbn.
    all: split; [| split].
    all: try solve [ intros moved dest ok H;
                     repeat (destruct H as [H | H]; try discriminate H);
                     try contradiction; injection H as <- <- _; auto ].
    all: try solve [ split; [ intros H; first [discriminate H | auto 6]
                            | intros H;
                              repeat (destruct H as [H | H]; try discriminate H);
                              try contradiction; try reflexivity;
                              injection H; intros; congruence ] ].
    all: try solve [ intros u H;
                     repeat (destruct H as [H | H]; try discriminate H);
                     contradiction ].
Qed.

(** X3.  What the results mean.  Each boolean mutation answers with
    the answer of its model call, taken when the close exchange is
    over, and with [false] when the close was declined;
    [recycleResource] answers for the deletion when there is no recycle
    bin and [false] when the bin has no usable link.  The creating and
    renaming operations return the editable locator of the very item
    the model returned, and nothing when the model returned none or the
    close was declined. *)
Theorem results_follow_the_model item w :
  let closed := snd (closeExchange item w) in
  let after := log w ++ fst (closeExchange item w) in
  let located := option_map (fun newItem => getUri U newItem false) in
  snd (exec (deleteResource item) w) =
    closed && model_delete model after item
  /\
  snd (exec (recycleResource item) w) =
    match model_getDelegateFolder model (log w) "@myRecycleBin" with
    | None => closed && model_delete model after item
    | Some bin =>
        match truthy (linkUri (links bin) "self") with
        | None => false
        | Some target => closed && model_moveTo model after item target
        end
    end
  /\
  snd (exec (addToMyFavorites item) w) = model_addFavorite model (log w) item
  /\
  snd (exec (removeFromMyFavorites item) w) =
    model_removeFavorite model (log w) item
  /\
  (forall folderName,
     snd (exec (createFolder item folderName) w) =
       located (model_createFolder model (log w) item folderName))
  /\
  (forall fileName buffer,
     snd (exec (createFile item fileName buffer) w) =
       located (model_createFile model (log w) item fileName buffer))
  /\
  (forall newName,
     snd (exec (renameResource item newName) w) =
       if closed
       then located (model_renameResource model after item newName)
       else None).
Proof.
  cbn zeta. repeat split; intros.
  all: case_exchange item w.
  all: case_oracles.
  all: reflexivity.
Qed.

Lemma find_first A (f : A -> bool) before x after :
  (forall y, In y before -> f y = false) -> f x = true ->
  find f (before ++ x :: after) = Some x.
Proof.
  intros Hb Hx. induction before as [| y before IH]; cbn.
  - rewrite Hx. reflexivity.
  - rewrite (Hb y (or_introl eq_refl)). apply IH.
    intros z Hz. apply Hb. right. exact Hz.
Qed.

Lemma removeTab_keeps t tab ts :
  In t ts -> tab_id t <> tab_id tab -> In t (removeTab tab ts).
Proof.
  intros Hin Hid. unfold removeTab. apply filter_In. split; [exact Hin |].
  apply Bool.negb_true_iff. apply Nat.eqb_neq. exact Hid.
Qed.

(** X14.  Only the first matching tab is ever closed.  When several
    tabs show the item's file id, [deleteResource] asks to close the
    first one in tab order and no other: every other tab — including
    later tabs on the same file — is still open afterwards, even when
    the deletion went through. *)
Theorem deleteResource_closes_first_tab_only item before tab after w :
  tabs w = before ++ tab :: after ->
  (forall t, In t before ->
     sameFileId (getUri U item (isItemInRecycleBin U item)) t = false) ->
  sameFileId (getUri U item (isItemInRecycleBin U item)) tab = true ->
  let run := exec (deleteResource item) w in
  exists tr,
    log (fst run) = log w ++ EvCloseRequest tab :: tr /\
    (forall t, ~ In (EvCloseRequest t) tr) /\
    (forall t, In t (before ++ after) -> tab_id t <> tab_id tab ->
               In t (tabs (fst run))).
Proof.
  intros Htabs Hbefore Htab. cbn zeta.
  pose proof (find_first _ _ before tab after Hbefore Htab) as Hfind.
  rewrite <- Htabs in Hfind.
  assert (Hothers : forall t, In t (before ++ after) -> In t (tabs w)).
  { intros t Ht. rewrite Htabs. apply in_app_iff.
    apply in_app_iff in Ht as [Ht | Ht]; [left | right; right]; exact Ht. }
  unfold_ops. rewrite Hfind. cbn. case_oracles.
  all: rewrite <- ?app_assoc; cbn.
  all: eexists; (split; [reflexivity |]); split.
  all: try solve [ intros t H;
                   repeat (destruct H as [H | H]; try discriminate H);
                   contradiction ].
  all: intros t Ht Hid.
  all: try solve [ apply Hothers; exact Ht ].
  all: apply removeTab_keeps; auto.
Qed.

(** ** Further properties of the batch operations *)


Lemma Joined_Merge_Exists A B (P : A -> B -> list Event -> Prop)
    (R : A -> Event -> Prop) xs rs trs tr x :
  (forall y r t, P y r t -> Exists (R y) t) ->
  Joined P xs rs trs -> Merge trs tr -> In x xs -> Exists (R x) tr.
Proof.
  intros HP HJ Hm Hx.
  destruct (Joined_In _ _ _ _ _ _ _ x HJ Hx) as (r & t & Ht & Hp).
  apply HP in Hp. apply Exists_exists in Hp as (e & He & HR).
  apply Exists_exists. exists e. split; [| assumption].
  eapply Merge_In; eauto.
Qed.


Lemma Interleave_Forall E (P : E -> Prop) (l1 l2 l : list E) :
  Interleave l1 l2 l -> Forall P l1 -> Forall P l2 -> Forall P l.
Proof.
  induction 1; intros H1 H2; auto.
  - inversion H1; subst. constructor; auto.
  - inversion H2; subst. constructor; auto.
Qed.

Lemma Merge_Forall E (P : E -> Prop) (trs : list (list E)) tr :
  Merge trs tr -> Forall (Forall P) trs -> Forall P tr.
Proof.
  induction 1 as [| t ts tr' tr Hm IH Hi]; intros Hall; [constructor|].
  inversion Hall; subst. eapply Interleave_Forall; eauto.
Qed.

Lemma only_app p d1 d2 : only p d1 -> only p d2 -> only p (d1 ++ d2).
Proof. unfold only. intros. apply Forall_app. auto. Qed.

Ltac only_events :=
  unfold only; repeat (apply Forall_cons; [reflexivity |]);
  try apply Forall_nil; try assumption.

(** Imports only ever create: what a directory entry's callback
    appends. *)
Lemma wp_handleFolderDropWith_only callback target dname entries display own :
  (forall e, In e entries ->
     forall folder cell,
       wp (callback folder cell display e) [] (fun _ tr => only isImportEvent tr)) ->
  wp (handleFolderDropWith callback target dname entries display) own
     (fun _ tr => exists d, tr = own ++ d /\ only isImportEvent d).
Proof.
  intros Hcb. unfold handleFolderDropWith.
  wp_step. apply wp_external. intros created.
  wp_step. apply wp_new_cell. intros cell.
  destruct created as [folder |].
  - wp_step. wp_step. wp_step.
    eapply wp_promise_all_map
      with (P := fun e (_ : unit) tr => only isImportEvent tr).
    + intros e He. apply Hcb. assumption.
    + intros rs trs tr HJ Hm. apply wp_read_cell. intros ok.
      rewrite <- app_assoc. eexists. split; [reflexivity|].
      apply only_app with (d1 := [_]); [only_events |].
      eapply Merge_Forall; [exact Hm |].
      eapply Joined_Forall; [| exact HJ]. auto.
  - wp_run; subst; close_trace; only_events.
Qed.

Lemma wp_folderDropEntry_only e :
  forall folder cell display own,
    wp (folderDropEntry folder cell display e) own
       (fun _ tr => exists d, tr = own ++ d /\ only isImportEvent d).
Proof.
  induction e as [fname content | dname entries IH] using FsEntry_induction;
    intros folder cell display own; cbn [folderDropEntry].
  - unfold createFile. wp_run; subst; close_trace; only_events.
  - wp_step. wp_step. wp_step.
    eapply wp_weaken; [| apply wp_handleFolderDropWith_only].
    + cbn beta. intros ok tr (d & -> & Hd). wp_step. eauto.
    + intros e He folder' cell'. rewrite Forall_forall in IH.
      eapply wp_weaken; [| apply (IH e He)].
      cbn beta. intros _ tr (d & -> & Hd). exact Hd.
Qed.

Lemma wp_handleFolderDrop_only target dname entries display own :
  wp (handleFolderDrop target dname entries display) own
     (fun _ tr => exists d, tr = own ++ d /\ only isImportEvent d).
Proof.
  apply wp_handleFolderDropWith_only. intros e _ folder cell.
  eapply wp_weaken; [| apply wp_folderDropEntry_only].
  cbn beta. intros _ tr (d & -> & Hd). exact Hd.
Qed.

Lemma traced_conj A (Q1 Q2 : A -> list Event -> Prop) :
  forall t own, traced own Q1 t -> traced own Q2 t ->
  traced own (fun a tr => Q1 a tr /\ Q2 a tr) t.
Proof.
  intro t. induction t as [a | turn IH] using Task_induction;
    intros own H1 H2; cbn in *.
  - auto.
  - intro w. destruct (H1 w) as (l1 & Hl1 & Ht1).
    destruct (H2 w) as (l2 & Hl2 & Ht2).
    assert (l2 = l1) as -> by (rewrite Hl1 in Hl2; eapply app_inv_head; eauto).
    exists l1. split; auto.
Qed.

Lemma wp_conj A (m : Async A) own (Q1 Q2 : A -> list Event -> Prop) :
  wp m own Q1 -> wp m own Q2 -> wp m own (fun a tr => Q1 a tr /\ Q2 a tr).
Proof.
  intros H1 H2 w. destruct (H1 w) as (l1 & Hl1 & Ht1).
  destruct (H2 w) as (l2 & Hl2 & Ht2).
  assert (l2 = l1) as -> by (rewrite Hl1 in Hl2; eapply app_inv_head; eauto).
  exists l1. split; [assumption|]. apply traced_conj; assumption.
Qed.

Lemma wp_dataTransferEntry target e :
  wp (dataTransferEntry target e) [] (fun _ tr => UriDropped target e tr).
Proof.
  destruct e as [fname content | dname entries]; cbn [dataTransferEntry].
  - unfold createFile, UriDropped. wp_run; subst; cbn [app].
    + split; [apply Exists_cons_hd; cbn; eauto |].
      split; [only_events |]. split; [reflexivity |].
      split; [reflexivity |].
      intros m arg [H | [H | []]]; discriminate.
    + split; [apply Exists_cons_hd; cbn; eauto |].
      split; [only_events |]. split; [reflexivity |].
      split; [reflexivity |].
      intros m arg [H | [H | []]]; [discriminate |].
      injection H as <- <-. auto.
  - wp_step. wp_step. wp_step.
    eapply wp_weaken;
      [| apply wp_conj;
         [apply wp_handleFolderDrop | apply wp_handleFolderDrop_only] ].
    cbn beta.
    intros ok tr [(created & rest & -> & Hup & _) (d & Hd & Honly)].
    cbn [app] in *. subst d. unfold UriDropped.
    destruct ok; wp_run; cbn [app].
    + split; [apply Exists_cons_hd; cbn; eauto |].
      split; [rewrite app_comm_cons;
              apply only_app; [assumption | only_events] |].
      split; [| exact I].
      rewrite count_cons, count_app, Hup. reflexivity.
    + split; [apply Exists_cons_hd; cbn; eauto |].
      split; [assumption |]. split; [| exact I].
      rewrite count_cons, Hup. reflexivity.
Qed.

Lemma Joined_files_sum (P : FsEntry -> unit -> list Event -> Prop)
    (c1 c2 : list Event -> nat) xs rs trs :
  (forall x r t, P x r t -> isFile x -> c1 t + c2 t = 1) ->
  Joined P xs rs trs -> Forall isFile xs ->
  list_sum (map c1 trs) + list_sum (map c2 trs) = List.length xs.
Proof.
  intros HP. induction 1 as [| x r t xs rs trs Hx HJ IH]; intros Hall;
    [reflexivity |].
  inversion Hall; subst.
  change (map ?f (t :: trs)) with (f t :: map f trs).
  change (list_sum (?y :: ?l)) with (y + list_sum l).
  change (List.length (x :: xs)) with (S (List.length xs)).
  specialize (HP _ _ _ Hx ltac:(assumption)). specialize (IH ltac:(assumption)).
  lia.
Qed.

Lemma wp_frame A (m : Async A) own (Q : A -> list Event -> Prop) :
  wp m [] Q -> wp m own (fun a tr => exists d, tr = own ++ d /\ Q a d).
Proof.
  intros H w. destruct (H w) as (l & Hl & Ht). exists l.
  split; [assumption |]. apply (traced_frame _ Q own) in Ht. exact Ht.
Qed.

Lemma wp_handleDataTransferItemDrop target entries :
  wp (handleDataTransferItemDrop target entries) []
     (fun _ tr => UrisDropped target entries tr).
Proof.
  unfold handleDataTransferItemDrop. wp_step.
  eapply wp_promise_all_map
    with (P := fun e (_ : unit) d => UriDropped target e d).
  - intros e _. apply wp_dataTransferEntry.
  - intros rs trs tr HJ Hm. cbn [app]. wp_step.
    split; [| split; [| split]].
    + intros e He.
      eapply Joined_Merge_Exists with (R := creates target); eauto.
      cbn beta. intros y r t Hy. apply Hy.
    + eapply Merge_Forall; [exact Hm |].
      eapply Joined_Forall; [| exact HJ]. cbn beta. intros x r t Hx. apply Hx.
    + eapply Joined_count_zero; [| exact HJ | exact Hm].
      cbn beta. intros x r t Hx. apply Hx.
    + intros Hfiles. rewrite !(Merge_count _ _ _ Hm).
      eapply Joined_files_sum; [| exact HJ | exact Hfiles].
      cbn beta. intros x r t (_ & _ & _ & Hx) Hfile.
      destruct x; [apply Hx | destruct Hfile].
Qed.

(** X5.  Dropping local uris on a target: in every interleaving the
    creation of each dropped entry is requested under the target,
    whatever happens to the others; nothing but creations, refreshes
    and messages is produced, and never the bulk-upload message.  For
    a drop of files only, each file ends in one refresh (created) or one
    [FileDropError] naming it, so refreshes and messages add up to the
    number of files. *)
Theorem handleDataTransferItemDrop_handles_every_uri target entries w :
  exists tr,
    appends (handleDataTransferItemDrop target entries) w tr /\
    (forall e, In e entries -> Exists (creates target e) tr) /\
    only isImportEvent tr /\
    count isUploadError tr = 0 /\
    (Forall isFile entries ->
     count isRefresh tr + count isShowError tr = List.length entries).
Proof.
  destruct (exec_wp _ _ _ w (wp_handleDataTransferItemDrop target entries))
    as (tr & Htr & H).
  exists tr. split; [exact Htr | exact H].
Qed.

Lemma wp_handleContentItemDrop_only target item :
  wp (handleContentItemDrop target item) []
     (fun _ tr => only isItemDropEvent tr).
Proof.
  unfold handleContentItemDrop, recycleResource, deleteResource,
    addToMyFavorites. cbn zeta.
  wp_run; subst; cbn [app]; only_events.
Qed.

(** X6.  [handleDrop] works through the two channels of the payload
    one after the other: everything the content items cause precedes
    everything the uri list causes.  The first part consists of item
    mutations, refreshes and messages only (nothing is created), the
    second of creations, refreshes and messages only (nothing is moved,
    deleted or closed).  A payload with neither channel changes
    nothing. *)
Theorem handleDrop_items_before_uris target items uris w :
  exec (handleDrop target (mkDataTransfer None None)) w = (w, tt) /\
  exists tr1 tr2,
    appends (handleDrop target (mkDataTransfer (Some items) (Some uris))) w
            (tr1 ++ tr2) /\
    only isItemDropEvent tr1 /\
    count isRefresh tr1 + count isShowError tr1 = List.length items /\
    UrisDropped target uris tr2.
Proof.
  split; [reflexivity |].
  assert (H : wp (handleDrop target (mkDataTransfer (Some items) (Some uris)))
                [] (fun _ tr => exists tr1 tr2, tr = tr1 ++ tr2 /\
                      only isItemDropEvent tr1 /\
                      count isRefresh tr1 + count isShowError tr1 =
                        List.length items /\
                      UrisDropped target uris tr2)).
  { unfold handleDrop. cbn [dt_contentItems dt_uriList].
    wp_step. wp_step.
    eapply wp_promise_all_map
      with (P := fun _ _ tr => ItemOutcome tr /\ only isItemDropEvent tr).
    - intros x _. wp_step.
      eapply wp_weaken;
        [| apply wp_conj;
           [apply wp_handleContentItemDrop
           | apply wp_handleContentItemDrop_only] ].
      cbn beta. intros r tr Htr. wp_step. exact Htr.
    - intros rs trs tr1 HJ Hm. cbn [app]. wp_step. wp_step.
      eapply wp_weaken; [| apply wp_frame, wp_handleDataTransferItemDrop].
      cbn beta. intros _ tr (tr2 & -> & Huris). wp_step.
      exists tr1, tr2. split; [reflexivity |]. split; [| split].
      + eapply Merge_Forall; [exact Hm |].
        eapply Joined_Forall; [| exact HJ]. cbn beta. intros x r t Hx. apply Hx.
      + rewrite !(Merge_count _ _ _ Hm).
        rewrite <- (proj2 (Joined_length _ _ _ _ _ _ _ HJ)).
        apply ItemOutcome_sum.
        eapply Joined_Forall; [| exact HJ]. cbn beta. intros x r t Hx. apply Hx.
      + exact Huris. }
  destruct (exec_wp _ _ _ w H) as (tr & Htr & tr1 & tr2 & -> & H1 & H2 & H3).
  exists tr1, tr2. auto.
Qed.

Lemma wp_uploadLoop_only target :
  forall uris acc own,
    wp (uploadLoop uris target acc) own
       (fun _ tr => exists d, tr = own ++ d /\ only isImportEvent d).
Proof.
  induction uris as [| u rest IH]; intros acc own.
  - cbn. apply wp_ret. exists []. rewrite app_nil_r. split; [reflexivity |].
    constructor.
  - cbn [uploadLoop]. destruct u as [fname content | dname entries].
    + unfold createFile. wp_step. wp_step. wp_step. wp_step.
      apply wp_external. intros created.
      destruct created as [newItem |]; wp_run;
        (eapply wp_weaken; [| apply IH]); cbn beta;
        intros failed tr (d & -> & Hd);
        rewrite <- ?app_assoc; cbn [app];
        (eexists; split; [reflexivity |]); only_events.
    + wp_step. eapply wp_weaken; [| apply wp_handleFolderDrop_only].
      cbn beta. intros ok tr (d1 & -> & Hd1).
      eapply wp_weaken; [| apply IH]. cbn beta.
      intros failed tr (d2 & -> & Hd2).
      rewrite <- !app_assoc. eexists. split; [reflexivity |].
      apply only_app; assumption.
Qed.

(** X7.  An import never does anything but create: every event that
    [handleFolderDrop] or [uploadUrisToTarget] appends is a folder or
    file creation, a tree refresh or an error message — no deletion, no
    move, no rename, no tab close, no local write — in every
    interleaving and whatever the model answers. *)
Theorem imports_only_create target w :
  (forall dname entries display, exists tr,
     appends (handleFolderDrop target dname entries display) w tr /\
     only isImportEvent tr)
  /\
  (forall uris, exists tr,
     appends (uploadUrisToTarget uris target) w tr /\ only isImportEvent tr).
Proof.
  split.
  - intros dname entries display.
    destruct (exec_wp _ _ _ w
                (wp_handleFolderDrop_only target dname entries display []))
      as (tr & Htr & d & -> & Hd).
    exists d. split; assumption.
  - intros uris.
    assert (H : wp (uploadUrisToTarget uris target) []
                  (fun _ tr => only isImportEvent tr)).
    { unfold uploadUrisToTarget. wp_step.
      eapply wp_weaken; [| apply wp_uploadLoop_only].
      cbn beta. intros failed tr (d & -> & Hd). cbn [app].
      unfold reportFailedUploads, handleCreationResponse.
      wp_run; [apply only_app; [assumption | only_events] | assumption]. }
    destruct (exec_wp _ _ _ w H) as (tr & Htr & Hd). eauto.
Qed.

Lemma requestedFiles_app d1 d2 :
  requestedFiles (d1 ++ d2) = requestedFiles d1 ++ requestedFiles d2.
Proof.
  induction d1 as [| e d1 IH]; [reflexivity |].
  destruct e; cbn; rewrite ?IH; reflexivity.
Qed.

Lemma failedFiles_app d1 d2 :
  failedFiles (d1 ++ d2) = failedFiles d1 ++ failedFiles d2.
Proof.
  induction d1 as [| e d1 IH]; [reflexivity |].
  destruct e as [| | | | | | | | ? ? ? [?|] | | | | | | | | | ]; cbn;
    rewrite ?IH; reflexivity.
Qed.

Lemma wp_uploadLoop_files target :
  forall uris acc own,
    Forall isFile uris ->
    wp (uploadLoop uris target acc) own
       (fun failed tr => exists d,
          tr = own ++ d /\
          failed = acc ++ failedFiles d /\
          requestedFiles d = map basename uris /\
          count isUploadError d = 0).
Proof.
  induction uris as [| u rest IH]; intros acc own Hfiles.
  - cbn. apply wp_ret. exists []. rewrite !app_nil_r. auto.
  - inversion Hfiles as [| ? ? Hu Hrest]; subst.
    destruct u as [fname content | dname entries]; [| destruct Hu].
    cbn [uploadLoop]. unfold createFile. wp_step. wp_step. wp_step. wp_step.
    apply wp_external. intros created.
    destruct created as [newItem |]; wp_run;
      (eapply wp_weaken; [| apply (IH _ _ Hrest)]); cbn beta;
      intros failed tr (d & -> & -> & Hreq & Hup);
      rewrite <- ?app_assoc; cbn [app];
      (eexists; split; [reflexivity |]);
      cbn [requestedFiles failedFiles basename map];
      rewrite !count_cons; cbn [isUploadError]; rewrite Hreq, Hup.
    + auto.
    + auto.
Qed.

(** X8.  Uploading files only: the files are handled strictly in list
    order, one creation request each; the list of failed uploads is
    exactly the names whose creation the model refused, in order; and
    the one upload error message is shown, as the last event, exactly
    when that list is not empty. *)
Theorem uploadUrisToTarget_files target uris w :
  Forall isFile uris ->
  exists tr,
    log (fst (exec (uploadLoop uris target []) w)) = log w ++ tr /\
    snd (exec (uploadLoop uris target []) w) = failedFiles tr /\
    requestedFiles tr = map basename uris /\
    appends (uploadUrisToTarget uris target) w
      (tr ++ match failedFiles tr with
             | [] => []
             | _ :: _ => [EvShowError FileUploadError None]
             end).
Proof.
  intros Hfiles.
  destruct (exec_wp _ _ _ w (wp_uploadLoop_files target uris [] [] Hfiles))
    as (tr & Htr & d & Hd & Hfailed & Hreq & Hup).
  cbn in Hd, Hfailed. subst d. exists tr.
  split; [exact Htr |]. split; [exact Hfailed |]. split; [exact Hreq |].
  unfold appends, uploadUrisToTarget. rewrite exec_bind.
  destruct (exec (uploadLoop uris target []) w) as [w1 failed].
  cbn [fst snd] in *. subst failed. unfold reportFailedUploads.
  destruct (failedFiles tr); cbn.
  - rewrite Htr, app_nil_r. reflexivity.
  - rewrite Htr, app_assoc. reflexivity.
Qed.

(** ** Further properties of the export *)

Lemma wp_external_at A (f : list Event -> A) ev own
    (Q : A -> list Event -> Prop) :
  (forall l, Q (f l) (own ++ [ev (f l)])) -> wp (external f ev) own Q.
Proof.
  intros H w. exists []. cbn. rewrite !app_nil_r. split; [reflexivity|].
  intro w'. exists [ev (f (log w'))]. cbn. auto.
Qed.

Lemma downloadContentItems_nil fuel folderUri allSelections :
  downloadContentItems (S fuel) folderUri [] allSelections = ret (Some tt).
Proof. reflexivity. Qed.

Section Ranked.

Variable allSelections : list ContentItem.
Variable rank : ContentItem -> nat.

Hypothesis selected_below :
  forall s c, isContainer U s = true ->
    In c (foundSelections s allSelections) -> rank c < rank s.
Hypothesis fetched_below :
  forall l s c, isContainer U s = true ->
    In c (model_getChildren model l (Some s)) -> rank c < rank s.

Lemma wp_downloadContentItems_ranked :
  forall n folderUri selections own,
    (forall s, In s selections -> rank s <= n) ->
    wp (downloadContentItems (S (S n)) folderUri selections allSelections) own
       (fun r _ => r = Some tt).
Proof.
  induction n as [| n IHn]; intros folderUri selections; revert folderUri.
  - induction selections as [| s rest IH]; intros folderUri own Hr.
    + apply wp_ret. reflexivity.
    + cbn [downloadContentItems].
      destruct (isContainer U s) eqn:Hc.
      * assert (Hnone : forall cs, (forall c, In c cs -> rank c < rank s) ->
                                   cs = []).
        { intros [| c cs] Hcs; [reflexivity |].
          specialize (Hcs c (or_introl eq_refl)).
          specialize (Hr s (or_introl eq_refl)). lia. }
        apply wp_await. unfold childrenSelections.
        destruct (Nat.ltb _ _).
        -- rewrite (Hnone _ (fun c => selected_below s c Hc)).
           apply wp_ret. wp_step. wp_step. wp_step. apply wp_ret.
           apply (IH folderUri). intros s' Hs'. apply Hr. right. exact Hs'.
        -- apply wp_external_at. intro l.
           rewrite (Hnone _ (fun c => fetched_below l s c Hc)).
           wp_step. wp_step. wp_step. apply wp_ret.
           apply (IH folderUri). intros s' Hs'. apply Hr. right. exact Hs'.
      * wp_step. wp_step. wp_step. wp_step.
        apply (IH folderUri). intros s' Hs'. apply Hr. right. exact Hs'.
  - induction selections as [| s rest IH]; intros folderUri own Hr.
    + apply wp_ret. reflexivity.
    + cbn [downloadContentItems].
      destruct (isContainer U s) eqn:Hc.
      * assert (Hsub : forall cs, (forall c, In c cs -> rank c < rank s) ->
                                  forall c, In c cs -> rank c <= n).
        { intros cs Hcs c Hin. specialize (Hcs c Hin).
          specialize (Hr s (or_introl eq_refl)). lia. }
        apply wp_await. unfold childrenSelections.
        destruct (Nat.ltb _ _).
        -- apply wp_ret. wp_step. wp_step. wp_step.
           eapply wp_weaken; [| apply IHn].
           ++ cbn beta. intros res tr' ->.
              apply (IH folderUri). intros s' Hs'. apply Hr. right. exact Hs'.
           ++ apply Hsub. intro c. apply selected_below. exact Hc.
        -- apply wp_external_at. intro l.
           wp_step. wp_step. wp_step.
           eapply wp_weaken; [| apply IHn].
           ++ cbn beta. intros res tr' ->.
              apply (IH folderUri). intros s' Hs'. apply Hr. right. exact Hs'.
           ++ apply Hsub. intro c. apply fetched_below. exact Hc.
      * wp_step. wp_step. wp_step. wp_step.
        apply (IH folderUri). intros s' Hs'. apply Hr. right. exact Hs'.
Qed.

End Ranked.

(** X9.  The export comes to an end on every well-founded hierarchy.
    If some rank strictly decreases from a container to its effective
    children — the selected items naming it as parent, and whatever the
    model lists under it — then a recursion budget of two more than the
    largest rank among the selections is enough for
    [downloadContentItems] to finish. *)
Theorem downloadContentItems_terminates
    (allSelections : list ContentItem) (rank : ContentItem -> nat)
    n folderUri selections w :
  (forall s c, isContainer U s = true ->
     In c (foundSelections s allSelections) -> rank c < rank s) ->
  (forall l s c, isContainer U s = true ->
     In c (model_getChildren model l (Some s)) -> rank c < rank s) ->
  (forall s, In s selections -> rank s <= n) ->
  snd (exec (downloadContentItems (S (S n)) folderUri selections allSelections)
            w) = Some tt.
Proof.
  intros Hsel Hfetch Hn.
  destruct (exec_wp _ _ _ w
              (wp_downloadContentItems_ranked allSelections rank Hsel Hfetch
                 n folderUri selections [] Hn)) as (tr & _ & Hr).
  exact Hr.
Qed.

Lemma downloadContentItems_cons_file fuel folderUri c rest allSelections w :
  isContainer U c = false ->
  exec (downloadContentItems (S fuel) folderUri (c :: rest) allSelections) w =
  let bytes := model_getContentByUri model (log w) (getUri U c false) in
  exec (downloadContentItems (S fuel) folderUri rest allSelections)
       (record (EvFsWriteFile (joinPath folderUri (name c)) bytes)
          (record (EvGetContent (getUri U c false) bytes) w)).
Proof.
  intros Hc. cbn [downloadContentItems]. rewrite Hc.
  rewrite exec_await. unfold readFile. rewrite exec_external.
  cbn beta iota zeta. rewrite exec_await, exec_external. reflexivity.
Qed.

Lemma downloadContentItems_files allSelections :
  forall cs fuel folderUri w,
    (forall c, In c cs -> isContainer U c = false) ->
    let run := exec (downloadContentItems (S fuel) folderUri cs allSelections)
                 w in
    snd run = Some tt /\
    exists tr,
      log (fst run) = log w ++ tr /\
      writtenPaths tr = map (fun c => joinPath folderUri (name c)) cs /\
      (forall i res, ~ In (EvGetChildren i res) tr).
Proof.
  induction cs as [| c cs IH]; intros fuel folderUri w Hfiles; cbn zeta.
  - split; [reflexivity |]. exists []. rewrite app_nil_r.
    repeat split; auto.
  - rewrite downloadContentItems_cons_file by (apply Hfiles; left; reflexivity).
    cbn zeta.
    match goal with
    | |- context [exec _ ?w1] =>
        destruct (IH fuel folderUri w1 (fun c' H => Hfiles c' (or_intror H)))
          as (Hres & tr & Hlog & Hpaths & Hno)
    end.
    split; [exact Hres |].
    eexists (_ :: _ :: tr). split; [| split].
    + rewrite Hlog. cbn. rewrite <- !app_assoc. reflexivity.
    + cbn. rewrite <- Hpaths. reflexivity.
    + intros i res [H | [H | H]]; [discriminate | discriminate |].
      exact (Hno i res H).
Qed.

Lemma downloadContentItems_cons_container fuel folderUri s rest allSelections w :
  isContainer U s = true ->
  exec (downloadContentItems (S fuel) folderUri (s :: rest) allSelections) w =
  let newFolderUri := joinPath folderUri (name s) in
  let (w1, selectionsWithinFolder) :=
    exec (childrenSelections s allSelections) w in
  let (w3, r) :=
    exec (downloadContentItems fuel newFolderUri selectionsWithinFolder
            allSelections)
         (record (EvFsCreateDirectory newFolderUri) w1) in
  match r with
  | Some _ =>
      exec (downloadContentItems (S fuel) folderUri rest allSelections) w3
  | None => (w3, None)
  end.
Proof.
  intros Hs. cbn [downloadContentItems]. rewrite Hs.
  rewrite exec_await.
  destruct (exec (childrenSelections s allSelections) w) as [w1 cs].
  cbn zeta. rewrite exec_await, exec_external. cbn beta iota zeta.
  rewrite exec_await.
  destruct (exec (downloadContentItems fuel _ cs allSelections) _)
    as [w3 [[] |]]; reflexivity.
Qed.

(** X10.  Exporting a folder none of whose children is selected (a
    collapsed folder): its children are fetched from the model once,
    the directory is created, and every fetched child is written into
    it, in the order the model listed them; an empty folder yields an
    empty directory.  (Children that are files; no further listing is
    requested.) *)
Theorem downloadContentItems_collapsed_folder allSelections A folderUri fuel w :
  isContainer U A = true ->
  foundSelections A allSelections = [] ->
  (forall c, In c (model_getChildren model (log w) (Some A)) ->
             isContainer U c = false) ->
  let children := model_getChildren model (log w) (Some A) in
  let dirA := joinPath folderUri (name A) in
  let run := exec (downloadContentItems (S (S fuel)) folderUri [A]
                     allSelections) w in
  snd run = Some tt /\
  exists tr,
    log (fst run) = log w ++ EvGetChildren (Some A) children :: tr /\
    writtenPaths tr = dirA :: map (fun c => joinPath dirA (name c)) children /\
    (forall i res, ~ In (EvGetChildren i res) tr).
Proof.
  intros HA Hnone Hfiles. cbn zeta.
  rewrite downloadContentItems_cons_container by exact HA. cbn zeta.
  unfold childrenSelections. rewrite Hnone.
  cbn [List.length Nat.ltb Nat.leb]. unfold getChildren. rewrite exec_external.
  set (children := model_getChildren model (log w) (Some A)) in *.
  match goal with
  | |- context [exec (downloadContentItems ?f ?d children allSelections) ?w1] =>
      destruct (downloadContentItems_files allSelections children fuel d w1
                  Hfiles) as (Hres & tr & Hlog & Hpaths & Hno);
      destruct (exec (downloadContentItems f d children allSelections) w1)
        as [w2 r]
  end.
  cbn [fst snd] in *. subst r. cbn.
  split; [reflexivity |].
  eexists (_ :: tr). split; [| split].
  - rewrite Hlog. cbn. rewrite <- !app_assoc. reflexivity.
  - unfold writtenPaths in *. cbn [flat_map fsTarget app].
    rewrite Hpaths. reflexivity.
  - intros i res [H | H]; [discriminate | exact (Hno i res H)].
Qed.

(** ** Further properties of the import *)

Ltac unfold_import :=
  unfold exec, handleFolderDrop, handleFolderDropWith, promise_all_map,
    createFile, new_cell, write_cell, read_cell, refresh, emit, external,
    localRead, when, bind, await, sync, ret.

Lemma store_middle (c : list bool) x rest b :
  store (List.length c) b (c ++ x :: rest) = c ++ b :: rest.
Proof. induction c as [| y c IH]; cbn; [reflexivity | rewrite IH; reflexivity]. Qed.

(** X11.  The recursive call of [handleFolderDrop] does not pass
    [displayErrorMessages] on.  So with messages switched off, as in a
    bulk upload, a file that fails directly in the uploaded directory
    is reported through the result only, while a subdirectory that
    cannot be created still shows its own [FileDropError]. *)
Theorem handleFolderDrop_nested_messages
    target dname folder sub subEntries fname content w :
  model_createFolder model (log w) target dname = Some folder ->
  let w1 := record (EvCreateFolder target dname (Some folder)) w in
  (model_createFile model (log w1) folder fname (Some content) = None ->
   let run := exec (handleFolderDrop target dname [FsFile fname content] false)
                w in
   snd run = false /\
   log (fst run) = log w1 ++ [EvCreateFile folder fname (Some content) None])
  /\
  (model_createFolder model (log w1) folder sub = None ->
   let run := exec (handleFolderDrop target dname [FsDir sub subEntries] false)
                w in
   snd run = false /\
   log (fst run) =
     log w1 ++ [EvCreateFolder folder sub None;
                EvShowError FileDropError (Some sub)]).
Proof.
  intros Hfolder. cbn zeta. split.
  - intros Hfile. cbn in Hfile. unfold_import. cbn. rewrite Hfolder. cbn.
    rewrite Hfile. cbn. rewrite store_middle, nth_middle. auto.
  - intros Hsub. cbn in Hsub. unfold_import. cbn. rewrite Hfolder. cbn.
    rewrite Hsub. cbn. rewrite <- !app_assoc. cbn [app].
    rewrite store_middle, nth_middle. auto.
Qed.

(** ** A logic of invariants *)

Lemma keeps_weaken A Inv (Q R : A -> World -> Prop) :
  (forall a w, Q a w -> R a w) ->
  forall t, keeps Inv Q t -> keeps Inv R t.
Proof.
  intros HQR t. induction t as [a | turn IH] using Task_induction;
    cbn; intros H.
  - destruct H as (w & Hw). eauto.
  - intros w Hw. destruct (H w Hw) as [H1 H2]. specialize (IH w).
    destruct (turn w) as [w' [a | turn']]; cbn in *; auto.
Qed.

Lemma hoare_weaken A Inv (P P' : World -> Prop) (m : Async A)
    (Q Q' : A -> World -> Prop) :
  (forall w, P' w -> P w) -> (forall a w, Q a w -> Q' a w) ->
  hoare Inv P m Q -> hoare Inv P' m Q'.
Proof.
  intros HP HQ H w Hw. destruct (H w (HP w Hw)) as [H1 H2]. split.
  - destruct (snd (m w)); auto.
  - eapply keeps_weaken; eauto.
Qed.

Lemma run_keeps A Inv (Q : A -> World -> Prop) :
  forall turn w, keeps Inv Q (Await turn) -> Inv w ->
  Q (snd (run (Await turn) w)) (fst (run (Await turn) w)).
Proof.
  intros turn. 
  assert (H : forall t, match t with
              | Done _ => True
              | Await _ => forall w, keeps Inv Q t -> Inv w ->
                                     Q (snd (run t w)) (fst (run t w))
              end).
  { intro t. induction t as [a | turn' IH] using Task_induction; [exact I |].
    intros w Hk Hw. cbn in Hk. destruct (Hk w Hw) as [H1 H2].
    specialize (IH w). cbn [run].
    destruct (turn' w) as [w' [a | turn'']]; cbn in *; auto. }
  exact (H (Await turn)).
Qed.

Lemma exec_hoare A Inv (P : World -> Prop) (m : Async A)
    (Q : A -> World -> Prop) w :
  hoare Inv P m Q -> P w -> Q (snd (exec m w)) (fst (exec m w)).
Proof.
  intros H Hw. unfold exec. destruct (H w Hw) as [H1 H2].
  destruct (m w) as [w1 [a | turn]]; cbn [fst snd] in *; [assumption |].
  apply run_keeps with (Inv := Inv); assumption.
Qed.

Lemma hoare_ret A Inv (P : World -> Prop) (a : A) (Q : A -> World -> Prop) :
  (forall w, P w -> Q a w) -> hoare Inv P (ret a) Q.
Proof. intros H w Hw. cbn. split; eauto. Qed.

Lemma hoare_sync A Inv (P : World -> Prop) (f : World -> World * A)
    (Q : A -> World -> Prop) :
  (forall w, P w -> Q (snd (f w)) (fst (f w))) -> hoare Inv P (sync f) Q.
Proof.
  intros H w Hw. unfold sync. specialize (H w Hw).
  destruct (f w) as [w' a]. cbn in *. split; eauto.
Qed.

Lemma graft_keeps A B Inv (k : A -> Async B) (R : A -> World -> Prop)
    (Q : B -> World -> Prop) :
  (forall a, hoare Inv (R a) (k a) Q) ->
  forall turn w, keeps Inv R (Await turn) ->
    keeps Inv Q (snd (graft (Await turn) k w)).
Proof.
  intros Hk turn.
  assert (H : forall t, match t with
              | Done _ => True
              | Await _ => forall w, keeps Inv R t ->
                                     keeps Inv Q (snd (graft t k w))
              end).
  { intro t. induction t as [a | turn' IH] using Task_induction; [exact I |].
    intros w0 Hkeeps. cbn. intros w Hw. cbn in Hkeeps.
    destruct (Hkeeps w Hw) as [H1 H2]. specialize (IH w).
    destruct (turn' w) as [w' [a | turn'']]; cbn in *.
    - destruct (Hk a w' H1) as [H3 H4]. destruct (k a w') as [w'' t''].
      cbn in *. auto.
    - split; [assumption |]. apply (IH w'). assumption. }
  intros w Hkeeps. exact (H (Await turn) w Hkeeps).
Qed.

Lemma hoare_bind A B Inv (P : World -> Prop) (m : Async A) (k : A -> Async B)
    (R : A -> World -> Prop) (Q : B -> World -> Prop) :
  hoare Inv P m R -> (forall a, hoare Inv (R a) (k a) Q) ->
  hoare Inv P (bind m k) Q.
Proof.
  intros Hm Hk w Hw. unfold bind. destruct (Hm w Hw) as [H1 H2].
  destruct (m w) as [w1 [a | turn]]; cbn [fst snd] in *.
  - cbn. apply (Hk a w1 H1).
  - split; [exact H1 |]. apply graft_keeps with (R := R); assumption.
Qed.

(** Awaiting a call that always suspends: the continuation runs in the
    turn that settles the call and may rely on all the call
    established. *)
Lemma hoare_await_grafted A B Inv (P : World -> Prop) (m : Async A)
    (k : A -> Async B) (R : A -> World -> Prop) (Q : B -> World -> Prop) :
  suspends m ->
  hoare Inv P m R -> (forall a, hoare Inv (R a) (k a) Q) ->
  hoare Inv P (await m k) Q.
Proof.
  intros Hs Hm Hk w Hw. unfold await. destruct (Hm w Hw) as [H1 H2].
  destruct (Hs w) as (turn & Ht).
  destruct (m w) as [w1 t]; cbn [fst snd] in *. subst t.
  split; [exact H1 |]. apply graft_keeps with (R := R); assumption.
Qed.

(** Awaiting any call: when the call settles at once the continuation
    waits for a later turn, so it can only rely on the invariant and on
    what is known of the result alone. *)
Lemma hoare_await A B Inv (P : World -> Prop) (m : Async A)
    (k : A -> Async B) (S : A -> Prop) (Q : B -> World -> Prop) :
  hoare Inv P m (fun a w => Inv w /\ S a) ->
  (forall a, S a -> hoare Inv Inv (k a) Q) ->
  hoare Inv P (await m k) Q.
Proof.
  intros Hm Hk w Hw. unfold await. destruct (Hm w Hw) as [H1 H2].
  destruct (m w) as [w1 [a | turn]]; cbn [fst snd] in *.
  - destruct H1 as [HInv HS]. split; [exact HInv |].
    cbn. intros w2 Hw2. destruct (Hk a HS w2 Hw2) as [H3 H4].
    destruct (k a w2) as [w3 t3]; cbn in *. auto.
  - split; [exact H1 |].
    apply graft_keeps with (R := fun a w => Inv w /\ S a); [| assumption].
    intros a. intros w' [HInv HS]. apply (Hk a HS w' HInv).
Qed.

Lemma hoare_external A Inv (P : World -> Prop) (f : list Event -> A) ev
    (Q : A -> World -> Prop) :
  (forall w, P w -> Inv w) ->
  (forall w, Inv w -> Q (f (log w)) (record (ev (f (log w))) w)) ->
  hoare Inv P (external f ev) Q.
Proof.
  intros HP HQ w Hw. cbn. split; [auto |].
  intros w' Hw'. cbn. split; eauto.
Qed.

Lemma hoare_localRead A Inv (P : World -> Prop) (a : A)
    (Q : A -> World -> Prop) :
  (forall w, P w -> Inv w) -> (forall w, Inv w -> Q a w) ->
  hoare Inv P (localRead a) Q.
Proof.
  intros HP HQ w Hw. cbn. split; [auto |].
  intros w' Hw'. cbn. split; eauto.
Qed.

Lemma suspends_external A (f : list Event -> A) ev : suspends (external f ev).
Proof. intro w. cbn. eauto. Qed.

Lemma suspends_localRead A (a : A) : suspends (localRead a).
Proof. intro w. cbn. eauto. Qed.

Lemma suspends_await A B (m : Async A) (k : A -> Async B) : suspends (await m k).
Proof.
  intro w. unfold await. destruct (m w) as [w1 [a | turn]]; cbn; eauto.
Qed.

Lemma keeps_tmap A B Inv (f : A -> B) (Q : B -> World -> Prop) :
  forall t, keeps Inv (fun a w => Q (f a) w) t -> keeps Inv Q (tmap f t).
Proof.
  intro t. induction t as [a | turn IH] using Task_induction; cbn; intros H.
  - exact H.
  - intros w Hw. destruct (H w Hw) as [H1 H2]. specialize (IH w).
    destruct (turn w) as [w' [a | turn']]; cbn in *; auto.
Qed.

(** Two promises side by side keep an invariant that each of them
    keeps. *)
Lemma par_keeps A B Inv (S1 : A -> Prop) (S2 : B -> Prop) :
  (forall w, Inv w -> Inv (snd (choose w))) ->
  forall t1 t2,
    keeps Inv (fun a w => Inv w /\ S1 a) t1 ->
    keeps Inv (fun b w => Inv w /\ S2 b) t2 ->
    keeps Inv (fun p w => Inv w /\ S1 (fst p) /\ S2 (snd p)) (par t1 t2).
Proof.
  intros Hchoose t1.
  induction t1 as [a | turn1 IH1] using Task_induction;
    intro t2; induction t2 as [b | turn2 IH2] using Task_induction;
    intros H1 H2.
  - cbn in *. destruct H1 as (w1 & Hw1 & Ha). destruct H2 as (w2 & Hw2 & Hb).
    exists w1. auto.
  - cbn. intros w Hw. cbn in H2. destruct (H2 w Hw) as [H3 H4].
    specialize (IH2 w). destruct (turn2 w) as [w' t2']. cbn [fst snd] in *.
    split; [| apply IH2; assumption].
    cbn in H1. destruct H1 as (w1 & _ & Ha).
    destruct t2' as [b | turn2']; cbn; intuition.
  - cbn. intros w Hw. cbn in H1. destruct (H1 w Hw) as [H3 H4].
    specialize (IH1 w). destruct (turn1 w) as [w' t1']. cbn [fst snd] in *.
    split; [| apply IH1; assumption].
    cbn in H2. destruct H2 as (w2 & _ & Hb).
    destruct t1' as [a | turn1']; cbn; intuition.
  - cbn. intros w Hw. specialize (Hchoose w Hw).
    destruct (choose w) as [[|] w0]; cbn [snd] in Hchoose.
    + cbn in H1. destruct (H1 w0 Hchoose) as [H3 H4].
      specialize (IH1 w0). destruct (turn1 w0) as [w' t1']. cbn [fst snd] in *.
      split; [| apply IH1; assumption].
      destruct t1' as [a | turn1']; cbn; tauto.
    + pose proof H2 as H2'. cbn in H2'. destruct (H2' w0 Hchoose) as [H3 H4].
      specialize (IH2 w0). destruct (turn2 w0) as [w' t2']. cbn [fst snd] in *.
      split; [| apply IH2; assumption].
      destruct t2' as [b | turn2']; cbn; tauto.
Qed.

Lemma all_keeps A X Inv (S : X -> A -> Prop) :
  (forall w, Inv w -> Inv (snd (choose w))) ->
  (exists w, Inv w) ->
  forall xs ts,
    Forall2 (fun x t => keeps Inv (fun a w => Inv w /\ S x a) t) xs ts ->
    keeps Inv (fun rs w => Inv w /\ Forall2 S xs rs) (all ts).
Proof.
  intros Hchoose (w0 & Hw0). induction 1 as [| x t xs ts Ht Hts IH].
  - cbn. exists w0. auto.
  - cbn [all]. apply keeps_tmap.
    eapply keeps_weaken;
      [| apply (par_keeps _ _ Inv (S x) (Forall2 S xs) Hchoose _ _ Ht IH)].
    cbn beta. intros [a rs] w (Hw & Ha & Hrs). cbn in *. auto.
Qed.

Lemma start_all_keeps A X Inv (f : X -> Async A) (S : X -> A -> Prop) :
  forall xs,
    (forall x, In x xs -> hoare Inv Inv (f x) (fun a w => Inv w /\ S x a)) ->
    forall w, Inv w ->
      Inv (fst (start_all f xs w)) /\
      Forall2 (fun x t => keeps Inv (fun a w => Inv w /\ S x a) t)
              xs (snd (start_all f xs w)).
Proof.
  induction xs as [| x xs IH]; intros Hf w Hw; cbn.
  - auto.
  - destruct (Hf x (or_introl eq_refl) w Hw) as [H1 H2].
    destruct (f x w) as [w1 t]. cbn [fst snd] in *.
    assert (Hw1 : Inv w1) by (destruct t; tauto).
    destruct (IH (fun y Hy => Hf y (or_intror Hy)) w1 Hw1) as [H3 H4].
    destruct (start_all f xs w1) as [w2 ts]. cbn [fst snd] in *.
    split; [assumption |]. constructor; assumption.
Qed.

(** [Promise.all(xs.map(f))] keeps an invariant that every call keeps,
    in every interleaving. *)
Lemma hoare_promise_all_map A X Inv (f : X -> Async A) (S : X -> A -> Prop) xs :
  (forall w, Inv w -> Inv (snd (choose w))) ->
  (forall x, In x xs -> hoare Inv Inv (f x) (fun a w => Inv w /\ S x a)) ->
  hoare Inv Inv (promise_all_map f xs) (fun rs w => Inv w /\ Forall2 S xs rs).
Proof.
  intros Hchoose Hf w Hw. unfold promise_all_map.
  destruct (start_all_keeps _ _ Inv f S xs Hf w Hw) as [H1 H2].
  destruct (start_all f xs w) as [w1 ts]. cbn [fst snd] in *.
  pose proof (all_keeps _ _ Inv S Hchoose (ex_intro _ w1 H1) xs ts H2) as Hall.
  split; [| exact Hall].
  destruct (all ts) as [rs | turn]; [| exact H1].
  cbn in Hall. destruct Hall as (w' & _ & Hrs). auto.
Qed.

(** ** The success flag of an import *)

Lemma length_store j b c : List.length (store j b c) = List.length c.
Proof.
  revert j. induction c as [| x c IH]; intros [| j]; cbn; auto.
Qed.

Lemma nth_store_same j b c d :
  j < List.length c -> nth j (store j b c) d = b.
Proof.
  revert j. induction c as [| x c IH]; intros [| j] H; cbn in *; try lia.
  - reflexivity.
  - apply IH. lia.
Qed.

Lemma nth_store_other i j b c d :
  i <> j -> nth i (store j b c) d = nth i c d.
Proof.
  revert i j. induction c as [| x c IH]; intros [| i] [| j] H; cbn;
    try reflexivity; try congruence.
  apply IH. congruence.
Qed.

Lemma nth_store_false i j b c :
  nth i (store j b c) true = false -> (i = j /\ b = false) \/ nth i c true = false.
Proof.
  intros H. destruct (Nat.eq_dec i j) as [-> | Hne].
  - destruct (Nat.lt_ge_cases j (List.length c)) as [Hlt | Hge].
    + rewrite nth_store_same in H by assumption. auto.
    + rewrite nth_overflow in H by (rewrite length_store; assumption).
      discriminate.
  - rewrite nth_store_other in H by assumption. auto.
Qed.

Lemma HasFailure_app_l tr1 tr2 : HasFailure tr1 -> HasFailure (tr1 ++ tr2).
Proof. unfold HasFailure. intros H. apply Exists_app. auto. Qed.

Lemma skipn_record start (e : Event) l :
  start <= List.length l -> skipn start (l ++ [e]) = skipn start l ++ [e].
Proof.
  intros H. rewrite skipn_app.
  replace (start - List.length l) with 0 by lia. reflexivity.
Qed.

Lemma FlagsJustified_choose base start w :
  FlagsJustified base start w -> FlagsJustified base start (snd (choose w)).
Proof. unfold choose. destruct (sched w); auto. Qed.

Lemma FlagsJustified_record base start e w :
  FlagsJustified base start w -> FlagsJustified base start (record e w).
Proof.
  intros (Hb & Hs & Hj). unfold FlagsJustified. cbn.
  rewrite length_app. cbn. repeat split; try lia.
  intros i Hi Hfalse. rewrite skipn_record by assumption.
  apply HasFailure_app_l. eauto.
Qed.

Lemma HasFailure_record start e w :
  start <= List.length (log w) -> isFailedCreation e = true ->
  HasFailure (skipn start (log (record e w))).
Proof.
  intros Hs He. cbn. rewrite skipn_record by assumption.
  apply Exists_app. right. constructor. assumption.
Qed.

Lemma HasFailure_kept start e w :
  start <= List.length (log w) ->
  HasFailure (skipn start (log w)) ->
  HasFailure (skipn start (log (record e w))).
Proof.
  intros Hs H. cbn. rewrite skipn_record by assumption.
  apply HasFailure_app_l. assumption.
Qed.

Lemma FlagsJustified_new_cell base start w :
  FlagsJustified base start w ->
  FlagsJustified base start (set_cells (cells w ++ [true]) w) /\
  base <= List.length (cells w).
Proof.
  intros (Hb & Hs & Hj). split; [| assumption].
  unfold FlagsJustified. cbn. rewrite length_app. cbn.
  repeat split; try lia.
  intros i Hi Hfalse. apply (Hj i Hi).
  destruct (Nat.lt_ge_cases i (List.length (cells w))) as [Hlt | Hge].
  - rewrite app_nth1 in Hfalse by assumption. assumption.
  - rewrite app_nth2 in Hfalse by assumption.
    destruct (i - List.length (cells w)) as [| [| k]]; discriminate.
Qed.

Lemma FlagsJustified_write base start cell b w :
  FlagsJustified base start w ->
  (b = false -> HasFailure (skipn start (log w))) ->
  FlagsJustified base start (set_cells (store cell b (cells w)) w).
Proof.
  intros (Hb & Hs & Hj) Hfail. unfold FlagsJustified. cbn.
  rewrite length_store. repeat split; try assumption.
  intros i Hi Hfalse.
  destruct (nth_store_false _ _ _ _ Hfalse) as [[_ ->] | H]; eauto.
Qed.

Section Justified.

Variables base start : nat.

Let G := FlagsJustified base start.
Let failedSince := fun w => HasFailure (skipn start (log w)).

Lemma hoare_createFile folder fname buffer :
  hoare G G (createFile folder fname buffer)
        (fun r w => G w /\ (r = None -> failedSince w)).
Proof.
  unfold createFile.
  apply hoare_await_grafted
    with (R := fun r w => G w /\ (r = None -> failedSince w)).
  - apply suspends_external.
  - apply hoare_external; [auto |].
    intros w Hw. split; [apply FlagsJustified_record; exact Hw |].
    intros Hnone. rewrite Hnone. apply HasFailure_record; [apply Hw | reflexivity].
  - intros [newItem |].
    + eapply hoare_bind with (R := fun _ w => G w).
      * apply hoare_sync. intros w [Hw _]. cbn.
        apply FlagsJustified_record. exact Hw.
      * intros _. apply hoare_ret. intros w Hw. split; [exact Hw | discriminate].
    + apply hoare_ret. intros w [H1 H2]. split; [exact H1 |].
      intros _. apply H2. reflexivity.
Qed.

Lemma hoare_assume A Inv (P : World -> Prop) (S : Prop) (m : Async A)
    (Q : A -> World -> Prop) :
  (forall w, P w -> S) -> (S -> hoare Inv P m Q) -> hoare Inv P m Q.
Proof. intros HS H w Hw. exact (H (HS w Hw) w Hw). Qed.

Lemma hoare_handleFolderDropWith callback target dname entries display :
  (forall e, In e entries -> forall folder cell,
     base <= cell ->
     hoare G G (callback folder cell display e) (fun _ w => G w /\ True)) ->
  hoare G G (handleFolderDropWith callback target dname entries display)
        (fun ok w => G w /\ (ok = false -> failedSince w)).
Proof.
  intros Hcb. unfold handleFolderDropWith.
  apply hoare_await_grafted
    with (R := fun created w => G w /\ (created = None -> failedSince w)).
  - apply suspends_external.
  - apply hoare_external; [auto |].
    intros w Hw. split; [apply FlagsJustified_record; exact Hw |].
    intros Hnone. rewrite Hnone. apply HasFailure_record; [apply Hw | reflexivity].
  - intros created.
    apply hoare_bind
      with (R := fun cell w => G w /\ base <= cell /\
                               (created = None -> failedSince w)).
    + apply hoare_sync. intros w [Hw Hnone]. cbn.
      destruct (FlagsJustified_new_cell _ _ _ Hw) as [H1 H2].
      split; [exact H1 |]. split; [exact H2 |].
      intros Hc. specialize (Hnone Hc). exact Hnone.
    + intros cell. apply hoare_assume with (S := base <= cell); [tauto |].
      intros Hcell. destruct created as [folder |].
      * apply hoare_await_grafted
          with (R := fun fs w => G w /\ fs = entries).
        -- apply suspends_localRead.
        -- apply hoare_localRead; [tauto | auto].
        -- intros filesOrFolders.
           apply hoare_assume with (S := filesOrFolders = entries); [tauto |].
           intros ->.
           apply hoare_await with (S := fun _ : list unit => True).
           ++ eapply hoare_weaken;
                [| | apply hoare_promise_all_map
                       with (S := fun (_ : FsEntry) (_ : unit) => True)].
              ** intros w [Hw _]. exact Hw.
              ** cbn beta. intros rs w [Hw _]. auto.
              ** apply FlagsJustified_choose.
              ** intros e He. apply Hcb; assumption.
           ++ intros _ _. apply hoare_sync. intros w Hw. cbn.
              split; [exact Hw |]. intros Hfalse.
              destruct Hw as (_ & _ & Hj). exact (Hj cell Hcell Hfalse).
      * apply hoare_bind with (R := fun _ w => G w /\ failedSince w).
        -- destruct display; cbn [when].
           ++ apply hoare_sync. intros w (Hw & _ & Hnone). cbn.
              split; [apply FlagsJustified_record; exact Hw |].
              apply HasFailure_kept; [apply Hw | apply Hnone; reflexivity].
           ++ apply hoare_ret. intros w (Hw & _ & Hnone).
              split; [exact Hw | apply Hnone; reflexivity].
        -- intros _. apply hoare_ret. intros w [Hw Hf]. auto.
Qed.

Lemma hoare_folderDropEntry e :
  forall folder cell display,
    base <= cell ->
    hoare G G (folderDropEntry folder cell display e) (fun _ w => G w /\ True).
Proof.
  induction e as [fname content | dname entries IH] using FsEntry_induction;
    intros folder cell display Hcell; cbn [folderDropEntry].
  - apply hoare_await_grafted with (R := fun _ w => G w);
      [apply suspends_localRead | apply hoare_localRead; auto |].
    intros _.
    apply hoare_await_grafted with (R := fun _ w => G w);
      [apply suspends_localRead | apply hoare_localRead; auto |].
    intros buffer.
    apply hoare_await_grafted
      with (R := fun r w => G w /\ (r = None -> failedSince w));
      [apply suspends_await | apply hoare_createFile |].
    intros [u |].
    + apply hoare_ret. intros w [Hw _]. auto.
    + apply hoare_bind with (R := fun _ w => G w).
      * apply hoare_sync. intros w [Hw Hf]. cbn.
        apply FlagsJustified_write; [exact Hw |].
        intros _. apply Hf. reflexivity.
      * intros _. destruct display; cbn [when].
        -- apply hoare_sync. intros w Hw. cbn.
           split; [apply FlagsJustified_record; exact Hw | exact I].
        -- apply hoare_ret. auto.
  - apply hoare_await_grafted with (R := fun _ w => G w);
      [apply suspends_localRead | apply hoare_localRead; auto |].
    intros _.
    apply hoare_await_grafted
      with (R := fun ok w => G w /\ (ok = false -> failedSince w)).
    + apply suspends_await.
    + apply hoare_handleFolderDropWith. intros e He folder' cell' Hcell'.
      rewrite Forall_forall in IH. apply (IH e He). exact Hcell'.
    + intros ok. apply hoare_sync. intros w [Hw Hf]. cbn.
      split; [apply FlagsJustified_write; [exact Hw | exact Hf] | exact I].
Qed.

End Justified.

Lemma skipn_own (l tr : list Event) : skipn (List.length l) (l ++ tr) = tr.
Proof.
  rewrite skipn_app, skipn_all, Nat.sub_diag. reflexivity.
Qed.

Lemma FlagsJustified_initial w :
  FlagsJustified (List.length (cells w)) (List.length (log w)) w.
Proof.
  repeat split; try lia. intros i Hi Hfalse.
  rewrite nth_overflow in Hfalse by assumption. discriminate.
Qed.

(** X12.  A failure reported by [handleFolderDrop] is real: whatever
    the directory tree, the model's answers and the interleaving, a
    [false] result implies that at least one folder or file creation of
    this import was refused.  (The converse fails, see C2.) *)
Theorem handleFolderDrop_failure_is_real target dname entries display w :
  let run := exec (handleFolderDrop target dname entries display) w in
  exists tr,
    log (fst run) = log w ++ tr /\
    (snd run = false -> HasFailure tr).
Proof.
  cbn zeta.
  destruct (exec_wp _ _ _ w
              (wp_handleFolderDrop_only target dname entries display []))
    as (tr & Htr & _).
  exists tr. split; [exact Htr |].
  intros Hfalse.
  pose proof (exec_hoare _ _ _ _ _ w
                (hoare_handleFolderDropWith
                   (List.length (cells w)) (List.length (log w))
                   folderDropEntry target dname entries display
                   (fun e _ folder cell Hcell =>
                      hoare_folderDropEntry _ _ e folder cell display Hcell))
                (FlagsJustified_initial w)) as [_ H].
  specialize (H Hfalse). unfold handleFolderDrop in Htr.
  rewrite Htr, skipn_own in H. exact H.
Qed.

Lemma HasFailure_snoc tr e :
  HasFailure (tr ++ [e]) <-> HasFailure tr \/ isFailedCreation e = true.
Proof.
  unfold HasFailure. rewrite Exists_app. split.
  - intros [H | H]; [auto |]. inversion H as [? ? He | ? ? He]; subst.
    + auto.
    + inversion He.
  - intros [H | H]; [auto |]. right. constructor. exact H.
Qed.

Lemma FlagExact_choose cell start w :
  FlagExact cell start w -> FlagExact cell start (snd (choose w)).
Proof. unfold choose. destruct (sched w); auto. Qed.

Lemma FlagExact_record cell start e w :
  isFailedCreation e = false ->
  FlagExact cell start w -> FlagExact cell start (record e w).
Proof.
  intros He (Hc & Hs & Hiff). unfold FlagExact. cbn.
  rewrite length_app. cbn. repeat split; try lia.
  - intros H. rewrite skipn_record by assumption.
    apply HasFailure_snoc. left. apply Hiff. exact H.
  - intros H. rewrite skipn_record in H by assumption.
    apply HasFailure_snoc in H as [H | H]; [apply Hiff; exact H | congruence].
Qed.

(** A flat directory: the callbacks of its files keep the flag exact. *)
Lemma hoare_folderDropEntry_file cell start folder display fname content :
  hoare (FlagExact cell start) (FlagExact cell start)
        (folderDropEntry folder cell display (FsFile fname content))
        (fun _ w => FlagExact cell start w /\ True).
Proof.
  set (E := FlagExact cell start).
  set (failed := fun w => cell < List.length (cells w) /\
                          start <= List.length (log w) /\
                          HasFailure (skipn start (log w))).
  cbn [folderDropEntry].
  apply hoare_await_grafted with (R := fun _ w => E w);
    [apply suspends_localRead | apply hoare_localRead; auto |].
  intros _.
  apply hoare_await_grafted with (R := fun _ w => E w);
    [apply suspends_localRead | apply hoare_localRead; auto |].
  intros buffer.
  apply hoare_await_grafted
    with (R := fun (r : option Uri) w =>
                 match r with Some _ => E w | None => failed w end).
  - apply suspends_await.
  - unfold createFile.
    apply hoare_await_grafted
      with (R := fun (r : option ContentItem) w =>
                   match r with Some _ => E w | None => failed w end).
    + apply suspends_external.
    + apply hoare_external; [auto |].
      intros w Hw.
      destruct (model_createFile model (log w) folder fname (Some buffer)).
      * apply FlagExact_record; [reflexivity | exact Hw].
      * destruct Hw as (Hc & Hs & _). unfold failed. cbn.
        rewrite length_app. cbn. repeat split; try lia.
        rewrite skipn_record by assumption.
        apply HasFailure_snoc. right. reflexivity.
    + intros [newItem |].
      * apply hoare_bind with (R := fun _ w => E w).
        -- apply hoare_sync. intros w Hw. cbn.
           apply FlagExact_record; [reflexivity | exact Hw].
        -- intros _. apply hoare_ret. auto.
      * apply hoare_ret. auto.
  - intros [u |].
    + apply hoare_ret. intros w Hw. split; [exact Hw | exact I].
    + apply hoare_bind with (R := fun _ w => E w).
      * apply hoare_sync. intros w (Hc & Hs & Hf). cbn.
        unfold E, FlagExact. cbn. rewrite length_store.
        split; [assumption |]. split; [assumption |]. split.
        -- intros _. exact Hf.
        -- intros _. apply nth_store_same. assumption.
      * intros _. destruct display; cbn [when].
        -- apply hoare_sync. intros w Hw. cbn.
           split; [apply FlagExact_record; [reflexivity | exact Hw] | exact I].
        -- apply hoare_ret. auto.
Qed.

(** X13.  For a directory that holds only files the result is exact:
    once the folder is created, [handleFolderDrop] answers [false] if
    and only if the creation of at least one of the files was refused —
    in every interleaving.  (Losing a failure, as in C2, takes a
    subdirectory.) *)
Theorem handleFolderDrop_flat_directory_exact
    target dname files display folder w :
  Forall isFile files ->
  model_createFolder model (log w) target dname = Some folder ->
  let run := exec (handleFolderDrop target dname files display) w in
  exists tr,
    log (fst run) = log w ++ EvCreateFolder target dname (Some folder) :: tr /\
    (snd run = false <-> HasFailure tr).
Proof.
  intros Hfiles Hfolder. cbn zeta.
  unfold handleFolderDrop, handleFolderDropWith.
  rewrite exec_await, exec_external, Hfolder. cbn beta iota zeta.
  rewrite exec_bind. unfold new_cell. rewrite exec_sync. cbn beta iota zeta.
  set (w1 := record (EvCreateFolder target dname (Some folder)) w).
  set (cell := List.length (cells w1)).
  set (w2 := set_cells (cells w1 ++ [true]) w1).
  set (E := FlagExact cell (List.length (log w1))).
  match goal with
  | |- context [exec ?m w2] => set (rest := m)
  end.
  assert (Hentry : forall e, In e files ->
            hoare E E (folderDropEntry folder cell display e)
                  (fun _ w' => E w' /\ True)).
  { intros e He. rewrite Forall_forall in Hfiles. specialize (Hfiles e He).
    destruct e as [fname content |]; [| destruct Hfiles].
    apply hoare_folderDropEntry_file. }
  assert (Hh : hoare E E rest
                 (fun ok w' => ok = false <->
                    HasFailure (skipn (List.length (log w1)) (log w')))).
  { unfold rest.
    apply hoare_await_grafted with (R := fun fs w' => E w' /\ fs = files);
      [apply suspends_localRead | apply hoare_localRead; auto |].
    intros fs. apply hoare_assume with (S := fs = files); [tauto |].
    intros ->.
    apply hoare_await with (S := fun _ : list unit => True).
    - eapply hoare_weaken;
        [| | apply hoare_promise_all_map
               with (S := fun (_ : FsEntry) (_ : unit) => True)].
      + intros w' [Hw' _]. exact Hw'.
      + cbn beta. intros rs w' [Hw' _]. auto.
      + apply FlagExact_choose.
      + exact Hentry.
    - intros _ _. apply hoare_sync. intros w' (_ & _ & Hiff). cbn. exact Hiff. }
  assert (Hw : wp rest [] (fun _ _ => True)).
  { unfold rest. wp_step. wp_step. wp_step.
    eapply wp_promise_all_map with (P := fun _ _ _ => True).
    - intros e _. eapply wp_weaken; [| apply wp_folderDropEntry]. auto.
    - intros. apply wp_read_cell. auto. }
  assert (HE : E w2).
  { unfold E, FlagExact, w2, cell. cbn. rewrite length_app. cbn.
    repeat split; try lia.
    - rewrite nth_middle. discriminate.
    - rewrite skipn_all. intros H. inversion H. }
  destruct (exec_wp _ _ _ w2 Hw) as (tr & Htr & _).
  pose proof (exec_hoare _ _ _ _ _ w2 Hh HE) as Hiff.
  exists tr. split.
  - rewrite Htr. unfold w2, w1. cbn. rewrite <- app_assoc. reflexivity.
  - rewrite Hiff, Htr. unfold w2. 
    change (log (set_cells (cells w1 ++ [true]) w1)) with (log w1).
    rewrite skipn_own. reflexivity.
Qed.

(** ** Tree icons *)

Lemma append_assoc (a b c : string) :
  ((a ++ b) ++ c = a ++ (b ++ c))%string.
Proof. induction a as [| x a IH]; cbn; [| rewrite IH]; reflexivity. Qed.

Lemma split_nonempty sep s : split sep s <> [].
Proof.
  destruct s as [| c rest]; cbn; [discriminate |].
  destruct (Ascii.eqb c sep); [discriminate |].
  destruct (split sep rest); discriminate.
Qed.

Lemma join_cons segment rest :
  rest <> [] -> join (segment :: rest) = (segment ++ "." ++ join rest)%string.
Proof. destruct rest; [congruence | reflexivity]. Qed.

Lemma join_split s : join (split dot s) = s.
Proof.
  induction s as [| c rest IH]; [reflexivity |].
  cbn [split]. destruct (Ascii.eqb_spec c dot) as [-> | Hc].
  - rewrite join_cons by apply split_nonempty. rewrite IH. reflexivity.
  - pose proof (split_nonempty dot rest) as Hne.
    destruct (split dot rest) as [| segment segments]; [congruence |].
    rewrite <- IH. destruct segments; reflexivity.
Qed.

Lemma split_noDot s : Forall (fun segment => noDot segment = true) (split dot s).
Proof.
  induction s as [| c rest IH]; cbn [split].
  - constructor; [reflexivity | constructor].
  - destruct (Ascii.eqb_spec c dot) as [-> | Hc].
    + constructor; [reflexivity | exact IH].
    + destruct (split dot rest) as [| segment segments].
      * constructor; [| constructor]. cbn.
        apply Ascii.eqb_neq in Hc. rewrite Hc. reflexivity.
      * inversion IH; subst. constructor; [| assumption]. cbn.
        apply Ascii.eqb_neq in Hc. rewrite Hc. assumption.
Qed.

Lemma split_noDot_id s : noDot s = true -> split dot s = [s].
Proof.
  induction s as [| c rest IH]; [reflexivity |]. cbn.
  intros H. apply andb_true_iff in H as [Hc Hrest].
  apply negb_true_iff in Hc. rewrite Hc, (IH Hrest). reflexivity.
Qed.

Lemma split_append stem ext :
  split dot (stem ++ "." ++ ext)%string =
  split dot stem ++ split dot ext.
Proof.
  induction stem as [| c rest IH]; [reflexivity |].
  cbn [String.append split]. cbn [String.append] in IH. rewrite IH.
  destruct (Ascii.eqb c dot); [reflexivity |].
  pose proof (split_nonempty dot rest) as Hne.
  destruct (split dot rest); [congruence | reflexivity].
Qed.

Lemma join_snoc init ext :
  init <> [] -> join (init ++ [ext]) = (join init ++ "." ++ ext)%string.
Proof.
  induction init as [| segment rest IH]; [congruence |]. intros _.
  destruct rest as [| segment' rest'].
  - reflexivity.
  - change ((segment :: segment' :: rest') ++ [ext])
      with (segment :: ((segment' :: rest') ++ [ext])).
    rewrite join_cons by discriminate. rewrite IH by discriminate.
    rewrite (join_cons segment) by discriminate.
    cbn [String.append]. rewrite append_assoc. reflexivity.
Qed.

Lemma lowerChar_dot c :
  Ascii.eqb (lowerChar c) dot = Ascii.eqb c dot.
Proof.
  destruct c as [[] [] [] [] [] [] [] []]; vm_compute; reflexivity.
Qed.

Lemma noDot_toLowerCase s : noDot (toLowerCase s) = noDot s.
Proof.
  induction s as [| c rest IH]; [reflexivity |]. cbn.
  rewrite lowerChar_dot, IH. reflexivity.
Qed.

(** What [name.split(".").pop()] returns: the dot-free tail of the
    name. *)
Lemma pop_split_spec s ext :
  pop (split dot s) = ext <->
  noDot ext = true /\
  (s = ext \/ exists stem, s = (stem ++ "." ++ ext)%string).
Proof.
  unfold pop. split.
  - intros Hlast.
    pose proof (split_nonempty dot s) as Hne.
    destruct (exists_last Hne) as (init & e & Hsplit).
    rewrite Hsplit, last_last in Hlast. subst e.
    pose proof (split_noDot s) as Hdots. rewrite Hsplit in Hdots.
    apply Forall_app in Hdots as [_ Hdots]. inversion Hdots; subst.
    split; [assumption |].
    pose proof (join_split s) as Hjoin. rewrite Hsplit in Hjoin.
    destruct init as [| segment rest].
    + left. symmetry. exact Hjoin.
    + right. exists (join (segment :: rest)).
      rewrite join_snoc in Hjoin by discriminate. symmetry. exact Hjoin.
  - intros [Hdot [-> | [stem ->]]].
    + rewrite split_noDot_id by assumption. reflexivity.
    + rewrite split_append. rewrite (split_noDot_id ext) by assumption.
      apply last_last.
Qed.

Section IconProperties.

Variable extensionUri : Uri.
Variable getTypeName : ContentItem -> string.
Variable ROOT_FOLDER_TYPE : string.

(** X15.  The icon of a file is decided by what follows the last dot
    of its name, compared without regard to case — and by the whole
    name when it has no dot, so a file called "SAS" counts too.  Such
    a file gets the SAS program icon pair; every other file gets the
    theme's generic file icon. *)
Theorem iconPathForItem_file item :
  isContainer U item = false ->
  (hasSasExtension (name item) ->
     iconPathForItem extensionUri getTypeName ROOT_FOLDER_TYPE item =
     themed extensionUri "sasProgramFile") /\
  (~ hasSasExtension (name item) ->
     iconPathForItem extensionUri getTypeName ROOT_FOLDER_TYPE item =
     ThemeIconFile).
Proof.
  intros Hfile. unfold iconPathForItem. rewrite Hfile. cbn zeta.
  destruct (String.eqb_spec
              (toLowerCase (pop (split dot (name item)))) "sas")
    as [Hsas | Hother].
  - split; [reflexivity |]. intros Hno. exfalso. apply Hno.
    exists (pop (split dot (name item))). split; [exact Hsas |].
    apply (pop_split_spec (name item)). reflexivity.
  - split; [| reflexivity]. intros (ext & Hext & Hname). exfalso.
    apply Hother. replace (pop (split dot (name item))) with ext.
    + exact Hext.
    + symmetry. apply pop_split_spec. split; [| exact Hname].
      rewrite <- noDot_toLowerCase, Hext. reflexivity.
Qed.

(** X16.  A folder never gets a file icon, whatever it is called: not
    the theme's generic one, and not the SAS program one even when its
    name ends in ".sas". *)
Theorem iconPathForItem_container item :
  isContainer U item = true ->
  iconPathForItem extensionUri getTypeName ROOT_FOLDER_TYPE item <> ThemeIconFile /\
  iconPathForItem extensionUri getTypeName ROOT_FOLDER_TYPE item <>
  themed extensionUri "sasProgramFile".
Proof.
  intros Hdir. unfold iconPathForItem. rewrite Hdir. cbn zeta.
  destruct (String.eqb _ ROOT_FOLDER_TYPE);
    [| destruct (String.eqb _ (TRASH_FOLDER_TYPE U));
       [| destruct (String.eqb _ (FAVORITES_FOLDER_TYPE U))]].
  all: cbn; split; [discriminate |].
  all: unfold themed, joinPath; intros H; injection H as H _.
  all: apply app_inv_head in H; discriminate H.
Qed.

End IconProperties.

End ContentDataProvider.

(** ** The provider on the reference configuration *)

(** C1.  A recycle bin with two items, where deleting the first fails
    and deleting the second succeeds: [emptyRecycleBin] still answers
    [true] and refreshes the tree as after a full success. *)
Theorem emptyRecycleBin_reports_success_after_failed_delete :
  let model := scriptedModel (Some recycleBin)
                 (fun _ => [trashedSas; trashedLog]) ["old.sas"] in
  let run := exec (emptyRecycleBin demoUtils model (answeringHost true))
               (worldWith [] []) in
  snd run = true /\
  log (fst run) =
    [EvGetChildren (Some recycleBin) [trashedSas; trashedLog];
     EvDelete trashedSas false;
     EvDelete trashedLog true; EvRefresh;
     EvRefresh].
Proof. vm_compute. split; reflexivity. Qed.

(** C2.  A directory holding a file whose upload fails and an empty
    subdirectory whose import succeeds.  When the subdirectory finishes
    after the file, its result overwrites the [false] the file had
    stored, and [handleFolderDrop] answers [true] — in either listing
    order. *)
Theorem handleFolderDrop_success_flag_flips_back :
  let model := scriptedModel None (fun _ => []) ["a.sas"] in
  let proj := childOf myFolder "proj" "folder" in
  let fileFirst :=
    exec (handleFolderDrop demoUtils model myFolder "proj"
            [FsFile "a.sas" "data a;"; FsDir "sub" []] true)
         (worldWith [] []) in
  let fileLast :=
    exec (handleFolderDrop demoUtils model myFolder "proj"
            [FsDir "sub" []; FsFile "a.sas" "data a;"] true)
         (worldWith [] [false; false; false]) in
  let events :=
    [EvCreateFolder myFolder "proj" (Some proj);
     EvCreateFile proj "a.sas" (Some "data a;") None;
     EvShowError FileDropError (Some "a.sas");
     EvCreateFolder proj "sub" (Some (childOf proj "sub" "folder"))] in
  snd fileFirst = true /\ log (fst fileFirst) = events /\
  snd fileLast = true /\ log (fst fileLast) = events.
Proof. vm_compute. repeat split; reflexivity. Qed.


(** C4, refuted as stated.  With a read-only view of the file in front
    of the tab that shows the item's own locator, [renameResource]
    closes the view: the close of the tab at the old locator is never
    attempted, and that tab is still open after the remote rename.
    And with the view alone — the document at the item's locator not
    open — the renamed document is opened all the same. *)
Lemma renameResource_leaves_locator_tab_open :
  let rename := fun ts =>
    exec (renameResource demoUtils plainModel (answeringHost true)
            programSas "renamed.sas") (worldWith ts []) in
  let renamed := mkItem "renamed.sas" "file" "/files/files/1" (uri myFolder)
                        [] false in
  input programTab = TabInputText (demo_getUri programSas false) /\
  input staleTab <> TabInputText (demo_getUri programSas false) /\
  log (fst (rename [staleTab; programTab])) =
    [EvCloseRequest staleTab; EvCloseResult staleTab true;
     EvRename programSas "renamed.sas" (Some renamed);
     EvOpen (demo_getUri renamed false)] /\
  tabs (fst (rename [staleTab; programTab])) = [programTab] /\
  log (fst (rename [staleTab])) =
    [EvCloseRequest staleTab; EvCloseResult staleTab true;
     EvRename programSas "renamed.sas" (Some renamed);
     EvOpen (demo_getUri renamed false)].
Proof.
  vm_compute. split; [reflexivity | split; [discriminate |]].
  split; [reflexivity | split; reflexivity].
Qed.

(** C6.  A bulk upload of a directory that holds a file whose creation
    the model refuses and an empty subdirectory.  The refusal is in the
    log, yet the list of failed uploads stays empty and no upload error
    is shown, in either listing order; for the same file uploaded on
    its own the error is shown. *)
Theorem uploadUrisToTarget_drops_nested_failure :
  let model := scriptedModel None (fun _ => []) ["a.sas"] in
  let proj := childOf myFolder "proj" "folder" in
  let upload := fun uris s =>
    exec (uploadUrisToTarget demoUtils model uris myFolder) (worldWith [] s) in
  let failed := fun uris s =>
    snd (exec (uploadLoop demoUtils model uris myFolder []) (worldWith [] s)) in
  let fileFirst := [FsDir "proj" [FsFile "a.sas" "data a;"; FsDir "sub" []]] in
  let fileLast := [FsDir "proj" [FsDir "sub" []; FsFile "a.sas" "data a;"]] in
  let events :=
    [EvCreateFolder myFolder "proj" (Some proj);
     EvCreateFile proj "a.sas" (Some "data a;") None;
     EvCreateFolder proj "sub" (Some (childOf proj "sub" "folder"))] in
  failed fileFirst [] = [] /\
  log (fst (upload fileFirst [])) = events /\
  failed fileLast [false; false; false] = [] /\
  log (fst (upload fileLast [false; false; false])) = events /\
  failed [FsFile "a.sas" "data a;"] [] = ["a.sas"] /\
  log (fst (upload [FsFile "a.sas" "data a;"] [])) =
    [EvCreateFile myFolder "a.sas" (Some "data a;") None;
     EvShowError FileUploadError None].
Proof. vm_compute. repeat split; reflexivity. Qed.

(** *** Instances of the general theorems *)

Lemma handleContentItemDrop_precedence_witness :
  let drop := fun target item =>
    log (fst (exec (handleContentItemDrop demoUtils plainModel
                      (answeringHost true) target item) (worldWith [] []))) in
  drop favorites trashedSas =
    [EvShowError FileDragFromTrashError (Some "old.sas")] /\
  drop recycleBin programFavorite =
    [EvShowError FileDragFromFavorites (Some "program.sas")] /\
  drop recycleBin programSas =
    [EvMoveTo programSas (uri recycleBin) true; EvRefresh;
     EvDidChange (demo_getUri programSas true)] /\
  drop favorites programSas = [EvAddFavorite programSas true; EvRefresh] /\
  drop myFolder programSas =
    [EvMoveTo programSas (uri myFolder) true; EvRefresh] /\
  drop unaddressedFolder programSas =
    [EvShowError FileDropError (Some "program.sas")].
Proof.
  cbn zeta.
  pose proof (fun target item =>
    handleContentItemDrop_precedence demoUtils plainModel (answeringHost true)
      target item (worldWith [] [])) as H.
  cbn zeta in H. split; [| split; [| split; [| split; [| split]]]].
  - destruct (H favorites trashedSas) as (H1 & _).
    rewrite (H1 eq_refl). reflexivity.
  - destruct (H recycleBin programFavorite) as (_ & H2 & _).
    rewrite (H2 eq_refl eq_refl). reflexivity.
  - destruct (H recycleBin programSas) as (_ & _ & H3 & _).
    rewrite (H3 eq_refl eq_refl eq_refl). reflexivity.
  - destruct (H favorites programSas) as (_ & _ & _ & H4 & _).
    rewrite (H4 eq_refl eq_refl ltac:(discriminate) eq_refl). reflexivity.
  - destruct (H myFolder programSas) as (_ & _ & _ & _ & H5).
    specialize (H5 eq_refl eq_refl ltac:(discriminate) ltac:(discriminate)).
    change (truthy (getResourceIdFromItem demoUtils myFolder))
      with (Some (uri myFolder)) in H5.
    cbv beta iota zeta in H5. rewrite H5. reflexivity.
  - destruct (H unaddressedFolder programSas) as (_ & _ & _ & _ & H5).
    specialize (H5 eq_refl eq_refl ltac:(discriminate) ltac:(discriminate)).
    change (truthy (getResourceIdFromItem demoUtils unaddressedFolder))
      with (@None string) in H5.
    cbv beta iota zeta in H5. rewrite H5. reflexivity.
Defined.

Lemma renameResource_open_editor_witness :
  let rename := fun closes ts =>
    exec (renameResource demoUtils plainModel (answeringHost closes)
            programSas "renamed.sas") (worldWith ts []) in
  let renamed := mkItem "renamed.sas" "file" "/files/files/1" (uri myFolder)
                        [] false in
  let other := mkTab 3 TabInputOther in
  (log (fst (rename false [staleTab; programTab])) =
     [EvCloseRequest staleTab; EvCloseResult staleTab false] /\
   tabs (fst (rename false [staleTab; programTab])) = [staleTab; programTab] /\
   snd (rename false [staleTab; programTab]) = None) /\
  (log (fst (rename true [other; programTab])) =
     [EvCloseRequest programTab; EvCloseResult programTab true;
      EvRename programSas "renamed.sas" (Some renamed);
      EvOpen (demo_getUri renamed false)] /\
   tabs (fst (rename true [other; programTab])) = [other] /\
   snd (rename true [other; programTab]) = Some (demo_getUri renamed false)) /\
  (log (fst (rename true [other])) =
     [EvRename programSas "renamed.sas" (Some renamed)]).
Proof.
  cbn zeta.
  assert (Hprogram : exists u, showsDocument programTab u /\
            query u = query (demo_getUri programSas false)).
  { eexists. split; [left; reflexivity | reflexivity]. }
  assert (Hstale : exists u, showsDocument staleTab u /\
            query u = query (demo_getUri programSas false)).
  { eexists. split; [left; reflexivity | reflexivity]. }
  assert (Hother : ~ exists u, showsDocument (mkTab 3 TabInputOther) u /\
            query u = query (demo_getUri programSas false)).
  { intros (u & [Hu | Hu] & _); discriminate Hu. }
  split; [| split].
  - destruct (renameResource_open_editor demoUtils plainModel
                (answeringHost false) programSas "renamed.sas"
                (worldWith [staleTab; programTab] [])) as (H & _).
    cbn zeta in H.
    destruct H as (before & tab & after & Htabs & _ & Hb & Hdecl & _).
    { exists programTab. split; [right; left; reflexivity | exact Hprogram]. }
    destruct before as [| b before].
    + injection Htabs as <- <-.
      destruct (Hdecl eq_refl) as (Hrun & Htabs & Hlog).
      rewrite Hlog, Htabs, Hrun. split; [| split]; reflexivity.
    + injection Htabs as <- _. exfalso.
      exact (Hb staleTab (or_introl eq_refl) Hstale).
  - destruct (renameResource_open_editor demoUtils plainModel
                (answeringHost true) programSas "renamed.sas"
                (worldWith [mkTab 3 TabInputOther; programTab] []))
      as (H & _).
    cbn zeta in H.
    destruct H as (before & tab & after & Htabs & Hhas & _ & _ & Hacc).
    { exists programTab. split; [right; left; reflexivity | exact Hprogram]. }
    destruct before as [| b [| b' before]].
    + injection Htabs as <- _. exfalso. exact (Hother Hhas).
    + injection Htabs as _ <- <-.
      destruct (Hacc eq_refl) as (Hlog & Htabs & Hres).
      rewrite Hlog, Htabs, Hres. split; [| split]; reflexivity.
    + exfalso. injection Htabs as _ _ Htabs.
      destruct before; discriminate Htabs.
  - destruct (renameResource_open_editor demoUtils plainModel
                (answeringHost true) programSas "renamed.sas"
                (worldWith [mkTab 3 TabInputOther] [])) as (_ & H).
    cbn zeta in H. rewrite H; [reflexivity |].
    intros tab [<- | []]. exact Hother.
Defined.

Lemma recycleResource_behaviour_witness :
  let recycle := fun model =>
    exec (recycleResource demoUtils model (answeringHost true) programSas)
         (worldWith [] []) in
  log (fst (recycle (scriptedModel None hierarchy []))) =
    [EvDelete programSas true; EvRefresh] /\
  recycle (scriptedModel (Some unaddressedBin) hierarchy []) =
    (worldWith [] [], false) /\
  (exists closing,
     log (fst (recycle plainModel)) =
       closing ++ [EvMoveTo programSas (uri recycleBin) true; EvRefresh;
                   EvDidChange (demo_getUri programSas true)]).
Proof.
  cbn zeta. split; [| split].
  - destruct (recycleResource_behaviour demoUtils
                (scriptedModel None hierarchy []) (answeringHost true)
                programSas (worldWith [] [])) as (H & _).
    cbn zeta in H. rewrite (H eq_refl). reflexivity.
  - destruct (recycleResource_behaviour demoUtils
                (scriptedModel (Some unaddressedBin) hierarchy [])
                (answeringHost true) programSas (worldWith [] []))
      as (_ & H & _).
    exact (H unaddressedBin eq_refl eq_refl).
  - destruct (recycleResource_behaviour demoUtils plainModel
                (answeringHost true) programSas (worldWith [] []))
      as (_ & _ & H).
    destruct (H recycleBin (uri recycleBin) eq_refl eq_refl)
      as (tr & Htr & Hok & _).
    destruct (Hok eq_refl) as (closing & -> & _).
    exists closing. exact Htr.
Defined.

Lemma closeFileIfOpen_compares_file_id_witness :
  input staleTab <> TabInputText (demo_getUri programSas false) /\
  exec (closeFileIfOpen demoUtils programSas) (worldWith [staleTab] []) =
    (record (EvCloseRequest staleTab) (worldWith [staleTab] []),
     ClosingThenable staleTab) /\
  exec (deleteResource demoUtils plainModel (answeringHost true) programSas)
       (worldWith [mkTab 3 TabInputOther] []) =
    (mkWorld [mkTab 3 TabInputOther] [EvDelete programSas true; EvRefresh] [] [],
     true).
Proof.
  split; [discriminate | split].
  - destruct (closeFileIfOpen_compares_file_id demoUtils plainModel
                (answeringHost true) programSas (worldWith [staleTab] []))
      as (_ & H & _).
    cbn zeta in H. destruct H as (tab & Hin & _ & Hrun).
    + exists staleTab. split; [left; reflexivity |].
      eexists. split; [left; reflexivity | reflexivity].
    + destruct Hin as [<- | []]. exact Hrun.
  - destruct (closeFileIfOpen_compares_file_id demoUtils plainModel
                (answeringHost true) programSas
                (worldWith [mkTab 3 TabInputOther] []))
      as (_ & _ & H).
    cbn zeta in H. destruct H as (_ & _ & Hdel & _).
    + intros tab [<- | []] (u & [Hu | Hu] & _); discriminate.
    + rewrite Hdel. reflexivity.
Defined.


Lemma handleFolderDrop_aborts_branch_only_witness :
  let model := scriptedModel None hierarchy ["proj"] in
  let files := [FsFile "a.sas" "data a;"; FsFile "b.sas" "data b;";
                FsFile "c.sas" "data c;"] in
  log (fst (exec (uploadUrisToTarget demoUtils model [FsDir "proj" files]
                    myFolder) (worldWith [] []))) =
    [EvCreateFolder myFolder "proj" None; EvShowError FileUploadError None].
Proof.
  cbn zeta.
  destruct (handleFolderDrop_aborts_branch_only demoUtils
              (scriptedModel None hierarchy ["proj"]) myFolder "proj"
              [FsFile "a.sas" "data a;"; FsFile "b.sas" "data b;";
               FsFile "c.sas" "data c;"] (worldWith [] [])) as (_ & H).
  destruct (H eq_refl) as (_ & Hlog). exact Hlog.
Defined.

Lemma refresh_iff_model_success_witness :
  let refusing := scriptedModel (Some recycleBin) hierarchy ["program.sas"] in
  let trace := fun A (m : Async A) => log (fst (exec m (worldWith [programTab] []))) in
  let closing := [EvCloseRequest programTab; EvCloseResult programTab true] in
  let renamed := mkItem "renamed.sas" "file" "/files/files/1" (uri myFolder)
                        [] false in
  trace _ (deleteResource demoUtils plainModel (answeringHost true) programSas) =
    closing ++ [EvDelete programSas true; EvRefresh] /\
  trace _ (deleteResource demoUtils refusing (answeringHost true) programSas) =
    closing ++ [EvDelete programSas false] /\
  trace _ (deleteResource demoUtils plainModel (answeringHost false) programSas) =
    [EvCloseRequest programTab; EvCloseResult programTab false] /\
  trace _ (addToMyFavorites refusing programSas) =
    [EvAddFavorite programSas false] /\
  trace _ (createFolder demoUtils plainModel myFolder "proj") =
    [EvCreateFolder myFolder "proj" (Some (childOf myFolder "proj" "folder"));
     EvRefresh] /\
  trace _ (renameResource demoUtils plainModel (answeringHost true) programSas
             "renamed.sas") =
    closing ++ [EvRename programSas "renamed.sas" (Some renamed);
                EvOpen (demo_getUri renamed false)].
Proof.
  cbn zeta.
  pose proof (fun model host item =>
    refresh_iff_model_success demoUtils model host item
      (worldWith [programTab] [])) as H.
  cbn zeta in H. unfold appends in H.
  split; [| split; [| split; [| split; [| split]]]].
  - destruct (H plainModel (answeringHost true) programSas)
      as (_ & _ & Hdelete & _).
    rewrite Hdelete. reflexivity.
  - destruct (H (scriptedModel (Some recycleBin) hierarchy ["program.sas"])
                (answeringHost true) programSas) as (_ & _ & Hdelete & _).
    rewrite Hdelete. reflexivity.
  - destruct (H plainModel (answeringHost false) programSas)
      as (_ & _ & Hdelete & _).
    rewrite Hdelete. reflexivity.
  - destruct (H (scriptedModel (Some recycleBin) hierarchy ["program.sas"])
                (answeringHost true) programSas)
      as (_ & _ & _ & _ & _ & Hadd & _).
    rewrite Hadd. reflexivity.
  - destruct (H plainModel (answeringHost true) myFolder) as (Hcreate & _).
    rewrite Hcreate. reflexivity.
  - destruct (H plainModel (answeringHost true) programSas)
      as (_ & _ & _ & _ & _ & _ & _ & Hrename).
    rewrite Hrename. reflexivity.
Defined.

(** *** Instances of the further properties *)

Lemma restoreResource_previousParent_witness :
  let restore := fun item =>
    exec (restoreResource demoUtils plainModel (answeringHost true) item)
         (worldWith [] []) in
  restore programSas = (worldWith [] [], false) /\
  (exists tr,
     log (fst (restore trashedSas)) = tr /\
     (forall moved dest ok, In (EvMoveTo moved dest ok) tr ->
        moved = trashedSas /\ dest = uri myFolder) /\
     snd (restore trashedSas) = true).
Proof.
  cbn zeta. split.
  - destruct (restoreResource_previousParent demoUtils plainModel
                (answeringHost true) programSas (worldWith [] []))
      as (H & _).
    exact (H eq_refl).
  - destruct (restoreResource_previousParent demoUtils plainModel
                (answeringHost true) trashedSas (worldWith [] []))
      as (_ & H).
    destruct (H (uri myFolder) eq_refl) as (tr & Hlog & Honly & Hres & _).
    exists tr. split; [exact Hlog | split; [exact Honly |]].
    apply Hres. change (log (worldWith [] []) ++ tr) with tr in Hlog.
    rewrite <- Hlog. vm_compute. left. reflexivity.
Defined.

Lemma uploadUrisToTarget_files_witness :
  let model := scriptedModel None hierarchy ["b.sas"] in
  let uris := [FsFile "a.sas" "data a;"; FsFile "b.sas" "data b;"] in
  exists tr,
    requestedFiles tr = ["a.sas"; "b.sas"] /\
    failedFiles tr = ["b.sas"] /\
    log (fst (exec (uploadUrisToTarget demoUtils model uris myFolder)
                   (worldWith [] []))) =
      tr ++ [EvShowError FileUploadError None].
Proof.
  cbn zeta.
  destruct (uploadUrisToTarget_files demoUtils
              (scriptedModel None hierarchy ["b.sas"]) myFolder
              [FsFile "a.sas" "data a;"; FsFile "b.sas" "data b;"]
              (worldWith [] []))
    as (tr & Hlog & Hres & Hreq & Happ).
  - constructor; [exact I | constructor; [exact I | constructor]].
  - exists tr. split; [exact Hreq |].
    assert (Hfailed : failedFiles tr = ["b.sas"]).
    { rewrite <- Hres. reflexivity. }
    split; [exact Hfailed |].
    rewrite Hfailed in Happ. exact Happ.
Defined.

Lemma downloadContentItems_terminates_witness :
  snd (exec (downloadContentItems demoUtils plainModel 3 downloads
               [folderA] [folderA; fileX; fileY])
            (worldWith [] [])) = Some tt.
Proof.
  apply (downloadContentItems_terminates demoUtils plainModel
           [folderA; fileX; fileY] depth 1 downloads [folderA]
           (worldWith [] [])).
  - intros s c Hs Hin. apply filter_In in Hin as [Hin Hparent].
    unfold depth at 2. rewrite Hs.
    destruct Hin as [<- | [<- | [<- | []]]].
    + apply String.eqb_eq in Hparent. rewrite <- Hparent.
      cbn. lia.
    + destruct (String.eqb (uri s) (uri folderA)); cbn; lia.
    + destruct (String.eqb (uri s) (uri folderA)); cbn; lia.
  - intros l s c Hs Hin. unfold depth at 2. rewrite Hs.
    change (model_getChildren plainModel l (Some s))
      with (if String.eqb (uri s) (uri folderA)
            then [fileX; fileY; fileZ] else []) in Hin.
    destruct (String.eqb (uri s) (uri folderA)); [| contradiction].
    destruct Hin as [<- | [<- | [<- | []]]]; cbn; lia.
  - intros s [<- | []]. cbn. lia.
Defined.

Lemma downloadContentItems_collapsed_folder_witness :
  let dirA := joinPath downloads "A" in
  let run := exec (downloadContentItems demoUtils plainModel 2 downloads
                     [folderA] [folderA]) (worldWith [] []) in
  snd run = Some tt /\
  exists tr,
    log (fst run) = EvGetChildren (Some folderA) [fileX; fileY; fileZ] :: tr /\
    writtenPaths tr =
      [dirA; joinPath dirA "x.sas"; joinPath dirA "y.sas";
       joinPath dirA "z.sas"].
Proof.
  cbn zeta.
  destruct (downloadContentItems_collapsed_folder demoUtils plainModel
              [folderA] folderA downloads 0 (worldWith [] []))
    as (Hres & tr & Hlog & Hpaths & _).
  - reflexivity.
  - reflexivity.
  - intros c [<- | [<- | [<- | []]]]; reflexivity.
  - split; [exact Hres |]. exists tr. split; [exact Hlog | exact Hpaths].
Defined.

Lemma handleFolderDrop_nested_messages_witness :
  let proj := childOf myFolder "proj" "folder" in
  let drop := fun failing entry =>
    exec (handleFolderDrop demoUtils (scriptedModel None hierarchy failing)
            myFolder "proj" [entry] false) (worldWith [] []) in
  log (fst (drop ["a.sas"] (FsFile "a.sas" "data a;"))) =
    [EvCreateFolder myFolder "proj" (Some proj);
     EvCreateFile proj "a.sas" (Some "data a;") None] /\
  log (fst (drop ["sub"] (FsDir "sub" [FsFile "a.sas" "data a;"]))) =
    [EvCreateFolder myFolder "proj" (Some proj);
     EvCreateFolder proj "sub" None;
     EvShowError FileDropError (Some "sub")].
Proof.
  cbn zeta. split.
  - destruct (handleFolderDrop_nested_messages demoUtils
                (scriptedModel None hierarchy ["a.sas"]) myFolder "proj"
                (childOf myFolder "proj" "folder") "sub" []
                "a.sas" "data a;" (worldWith [] []) eq_refl) as (H & _).
    destruct (H eq_refl) as (_ & Hlog). exact Hlog.
  - destruct (handleFolderDrop_nested_messages demoUtils
                (scriptedModel None hierarchy ["sub"]) myFolder "proj"
                (childOf myFolder "proj" "folder") "sub"
                [FsFile "a.sas" "data a;"]
                "a.sas" "data a;" (worldWith [] []) eq_refl) as (_ & H).
    destruct (H eq_refl) as (_ & Hlog). exact Hlog.
Defined.

Lemma handleFolderDrop_flat_directory_exact_witness :
  let proj := childOf myFolder "proj" "folder" in
  let files := [FsFile "a.sas" "data a;"; FsFile "b.sas" "data b;"] in
  let drop := fun failing =>
    exec (handleFolderDrop demoUtils (scriptedModel None hierarchy failing)
            myFolder "proj" files true) (worldWith [] []) in
  (exists tr,
     log (fst (drop ["a.sas"])) =
       EvCreateFolder myFolder "proj" (Some proj) :: tr /\
     (snd (drop ["a.sas"]) = false <-> HasFailure tr)) /\
  (exists tr,
     log (fst (drop [])) =
       EvCreateFolder myFolder "proj" (Some proj) :: tr /\
     (snd (drop []) = false <-> HasFailure tr)).
Proof.
  cbn zeta. split.
  - apply (handleFolderDrop_flat_directory_exact demoUtils
             (scriptedModel None hierarchy ["a.sas"]) myFolder "proj"
             [FsFile "a.sas" "data a;"; FsFile "b.sas" "data b;"] true
             (childOf myFolder "proj" "folder") (worldWith [] [])).
    + constructor; [exact I | constructor; [exact I | constructor]].
    + reflexivity.
  - apply (handleFolderDrop_flat_directory_exact demoUtils
             (scriptedModel None hierarchy []) myFolder "proj"
             [FsFile "a.sas" "data a;"; FsFile "b.sas" "data b;"] true
             (childOf myFolder "proj" "folder") (worldWith [] [])).
    + constructor; [exact I | constructor; [exact I | constructor]].
    + reflexivity.
Defined.

Lemma deleteResource_closes_first_tab_only_witness :
  let run := exec (deleteResource demoUtils plainModel (answeringHost true)
                     programSas)
                  (worldWith [mkTab 3 TabInputOther; programTab; staleTab] []) in
  In staleTab (tabs (fst run)) /\
  exists tr, log (fst run) = EvCloseRequest programTab :: tr /\
             ~ In (EvCloseRequest staleTab) tr.
Proof.
  cbn zeta.
  destruct (deleteResource_closes_first_tab_only demoUtils plainModel
              (answeringHost true) programSas [mkTab 3 TabInputOther]
              programTab [staleTab]
              (worldWith [mkTab 3 TabInputOther; programTab; staleTab] []))
    as (tr & Hlog & Hno & Hkeep).
  - reflexivity.
  - intros t [<- | []]. reflexivity.
  - reflexivity.
  - split.
    + apply Hkeep; [right; left; reflexivity | discriminate].
    + exists tr. split; [exact Hlog | apply Hno].
Defined.

Lemma iconPathForItem_file_witness :
  let icon := iconPathForItem demoUtils extensionRoot type "RootFolder" in
  icon programSas = themed extensionRoot "sasProgramFile" /\
  icon trashedLog = ThemeIconFile.
Proof.
  cbn zeta. split.
  - destruct (iconPathForItem_file demoUtils extensionRoot type "RootFolder"
                programSas eq_refl) as (H & _).
    apply H. exists "sas". split; [reflexivity |].
    right. exists "program". reflexivity.
  - destruct (iconPathForItem_file demoUtils extensionRoot type "RootFolder"
                trashedLog eq_refl) as (_ & H).
    apply H. intros (ext & Hext & Hname).
    assert (Hpop : pop (split dot (name trashedLog)) = ext).
    { apply pop_split_spec. split; [| exact Hname].
      rewrite <- noDot_toLowerCase, Hext. reflexivity. }
    rewrite <- Hpop in Hext. discriminate Hext.
Defined.

Lemma iconPathForItem_container_witness :
  iconPathForItem demoUtils extensionRoot type "RootFolder" macrosFolder <>
    themed extensionRoot "sasProgramFile".
Proof.
  destruct (iconPathForItem_container demoUtils extensionRoot type
              "RootFolder" macrosFolder eq_refl) as (_ & H).
  exact H.
Defined.

Lemma results_follow_the_model_witness :
  let refusing := scriptedModel (Some recycleBin) hierarchy ["program.sas"] in
  let result := fun A (m : Async A) => snd (exec m (worldWith [programTab] [])) in
  result _ (deleteResource demoUtils plainModel (answeringHost true)
              programSas) = true /\
  result _ (deleteResource demoUtils refusing (answeringHost true)
              programSas) = false /\
  result _ (deleteResource demoUtils plainModel (answeringHost false)
              programSas) = false /\
  result _ (removeFromMyFavorites refusing programSas) = false /\
  result _ (createFolder demoUtils plainModel myFolder "proj") =
    Some (demo_getUri (childOf myFolder "proj" "folder") false) /\
  result _ (renameResource demoUtils plainModel (answeringHost false)
              programSas "renamed.sas") = None.
Proof.
  cbn zeta.
  pose proof (fun model host item =>
    results_follow_the_model demoUtils model host item
      (worldWith [programTab] [])) as H.
  cbn zeta in H.
  split; [| split; [| split; [| split; [| split]]]].
  - destruct (H plainModel (answeringHost true) programSas) as (Hdelete & _).
    rewrite Hdelete. reflexivity.
  - destruct (H (scriptedModel (Some recycleBin) hierarchy ["program.sas"])
                (answeringHost true) programSas) as (Hdelete & _).
    rewrite Hdelete. reflexivity.
  - destruct (H plainModel (answeringHost false) programSas) as (Hdelete & _).
    rewrite Hdelete. reflexivity.
  - destruct (H (scriptedModel (Some recycleBin) hierarchy ["program.sas"])
                (answeringHost true) programSas)
      as (_ & _ & _ & Hremove & _).
    rewrite Hremove. reflexivity.
  - destruct (H plainModel (answeringHost true) myFolder)
      as (_ & _ & _ & _ & Hcreate & _).
    rewrite Hcreate. reflexivity.
  - destruct (H plainModel (answeringHost false) programSas)
      as (_ & _ & _ & _ & _ & _ & Hdeclined).
    rewrite Hdeclined. reflexivity.
Defined.
